(** * Pothos comms math blocks: ConstArithmetic and Angle

    A shallow embedding of [math/ConstArithmetic.cpp] and [math/Angle.cpp]
    (portable build, [POTHOS_XSIMD] undefined): the element-wise kernels, the
    two block classes with their [work()] step, and the two factories. *)

From Stdlib Require Import ZArith NArith Lia Bool.
From Stdlib Require Import Floats.SpecFloat.
From stdpp Require Import base option list strings gmap.

(** ** Element types

    The scalar C++ types the factories instantiate their templates at. *)
Module Numeric.

#[local] Open Scope Z_scope.

Inductive ScalarType : Type :=
  | int8_t | int16_t | int32_t | int64_t
  | uint8_t | uint16_t | uint32_t | uint64_t
  | float | double.

(** [std::complex<A>]: a pair of components. *)
Record Complex (A : Type) : Type := mkComplex { real : A; imag : A }.
Arguments mkComplex {A} _ _.
Arguments real {A} _.
Arguments imag {A} _.

(** The template argument [T]: a scalar type or [std::complex] of one. *)
Inductive CType : Type :=
  | scalar (s : ScalarType)
  | complex (s : ScalarType).

Definition is_integral (s : ScalarType) : bool :=
  match s with float | double => false | _ => true end.

Definition is_signed (s : ScalarType) : bool :=
  match s with
  | int8_t | int16_t | int32_t | int64_t | float | double => true
  | _ => false
  end.

(** Width in bits of a scalar type. *)
Definition bits (s : ScalarType) : Z :=
  match s with
  | int8_t | uint8_t => 8
  | int16_t | uint16_t => 16
  | int32_t | uint32_t | float => 32
  | int64_t | uint64_t | double => 64
  end.

(** Values: integers are carried by [Z] (kept in range by [int_wrap]),
    floating-point values by IEEE 754 [spec_float] at the type's format. *)
Definition sval (s : ScalarType) : Type :=
  match s with
  | float | double => spec_float
  | _ => Z
  end.

Definition ctype (t : CType) : Type :=
  match t with
  | scalar s => sval s
  | complex s => Complex (sval s)
  end.

(** [IsComplex<T>]: false in general, true for [std::complex<T>]. *)
Definition IsComplex (t : CType) : bool :=
  match t with
  | scalar _ => false
  | complex _ => true
  end.

(** Integer arithmetic.  The operands of [+], [-], [*] and [/] are promoted
    to [int] when the type is narrower, and the result is converted back to
    the [w]-bit type: reduction modulo [2^w], into the signed or the
    unsigned range.  Signed overflow of [+], [-] and [*] at 32 and 64 bits
    is given its two's complement result as well. *)
Definition int_wrap (sg : bool) (w : Z) (z : Z) : Z :=
  if sg then (z + 2 ^ (w - 1)) mod 2 ^ w - 2 ^ (w - 1)
  else z mod 2 ^ w.

Definition int_min (w : Z) : Z := - 2 ^ (w - 1).
Definition int_max (w : Z) : Z := 2 ^ (w - 1) - 1.

Definition int_add (sg : bool) (w : Z) (x y : Z) : Z := int_wrap sg w (x + y).
Definition int_sub (sg : bool) (w : Z) (x y : Z) : Z := int_wrap sg w (x - y).
Definition int_mul (sg : bool) (w : Z) (x y : Z) : Z := int_wrap sg w (x * y).

(** The one quotient a signed type cannot represent: [min / -1].  Types
    narrower than [int] are promoted to [int] first, where the quotient of
    two promoted values always fits. *)
Definition quot_overflows (sg : bool) (w : Z) (x y : Z) : bool :=
  sg && (32 <=? w) && (x =? int_min w) && (y =? -1).

(** Integer [x / y] truncates towards zero.  Unlike the other operators it
    has no result at all in two cases, which the language leaves undefined
    and which trap on x86: a zero divisor, and a quotient that is not
    representable. *)
Definition int_div (sg : bool) (w : Z) (x y : Z) : option Z :=
  if y =? 0 then None
  else if quot_overflows sg w x y then None
  else Some (int_wrap sg w (Z.quot x y)).

(** The operators a template argument [T] supplies to the kernels.
    [divide] is partial: [None] is undefined behaviour. *)
Class Arith (T : Type) : Type := mkArith {
  zero : T;
  plus : T -> T -> T;
  minus : T -> T -> T;
  times : T -> T -> T;
  divide : T -> T -> option T
}.

Definition int_arith (sg : bool) (w : Z) : Arith Z :=
  {| zero := 0;
     plus := int_add sg w;
     minus := int_sub sg w;
     times := int_mul sg w;
     divide := int_div sg w |}.

(** IEEE 754 binary arithmetic, round to nearest even; division is total
    (it yields infinities and NaN). *)
Definition float_arith (prec emax : Z) : Arith spec_float :=
  {| zero := S754_zero false;
     plus := SFadd prec emax;
     minus := SFsub prec emax;
     times := SFmul prec emax;
     divide := fun x y => Some (SFdiv prec emax x y) |}.

Definition scalar_arith (s : ScalarType) : Arith (sval s) :=
  match s return Arith (sval s) with
  | int8_t => int_arith true 8
  | int16_t => int_arith true 16
  | int32_t => int_arith true 32
  | int64_t => int_arith true 64
  | uint8_t => int_arith false 8
  | uint16_t => int_arith false 16
  | uint32_t => int_arith false 32
  | uint64_t => int_arith false 64
  | float => float_arith 24 128
  | double => float_arith 53 1024
  end.

(** [std::complex<A>] operators, by the generic formulas of the class
    template over the component type's own operators. *)
Definition complex_arith {A : Type} (a : Arith A) : Arith (Complex A) :=
  {| zero := mkComplex (@zero A a) (@zero A a);
     plus := fun x y =>
       mkComplex (@plus A a (real x) (real y)) (@plus A a (imag x) (imag y));
     minus := fun x y =>
       mkComplex (@minus A a (real x) (real y)) (@minus A a (imag x) (imag y));
     times := fun x y =>
       mkComplex
         (@minus A a (@times A a (real x) (real y)) (@times A a (imag x) (imag y)))
         (@plus A a (@times A a (real x) (imag y)) (@times A a (imag x) (real y)));
     divide := fun x y =>
       let r := @plus A a (@times A a (real x) (real y))
                          (@times A a (imag x) (imag y)) in
       let n := @plus A a (@times A a (real y) (real y))
                          (@times A a (imag y) (imag y)) in
       im ← @divide A a
              (@minus A a (@times A a (imag x) (real y))
                          (@times A a (real x) (imag y))) n;
       re ← @divide A a r n;
       Some (mkComplex re im) |}.

#[export] Instance ctype_arith (t : CType) : Arith (ctype t) :=
  match t return Arith (ctype t) with
  | scalar s => scalar_arith s
  | complex s => complex_arith (scalar_arith s)
  end.

(** The scalar values one element holds: one for a real type, the real and
    imaginary parts for a complex one. *)
Definition base (t : CType) : ScalarType :=
  match t with scalar s => s | complex s => s end.

Definition components (t : CType) : ctype t -> list (sval (base t)) :=
  match t return ctype t -> list (sval (base t)) with
  | scalar s => fun x => [x]
  | complex s => fun z => [real z; imag z]
  end.

(** Floating-point literals: the nearest binary32 / binary64 value of
    [m * 2^e]. *)
Definition f32 (m e : Z) : spec_float := binary_normalize 24 128 m e false.
Definition f64 (m e : Z) : spec_float := binary_normalize 53 1024 m e false.

End Numeric.
Export Numeric.

(** ** Kernels: the scalar loops of the implementation getters *)
Module Kernels.

Section Loops.
Context {InType OutType : Type}.

(** [for (size_t i = 0; i < num; i++) out[i] = body(in[i]);] with [count]
    iterations left, at index [i].  Reading past the input, writing past the
    output or a [body] without a result is undefined behaviour: [None]. *)
Fixpoint for_lanes (body : InType -> option OutType) (inp : list InType)
    (count i : nat) (out : list OutType) : option (list OutType) :=
  match count with
  | O => Some out
  | S count' =>
      x ← inp !! i;
      y ← body x;
      if (i <? length out)%nat
      then for_lanes body inp count' (S i) (<[i:=y]> out)
      else None
  end.

End Loops.

(** [ConstArithmeticFcn<T>]: called with [(in, k, out, num)], it gives the
    contents of the output buffer after the call. *)
Definition ConstArithmeticFcn (T : Type) : Type :=
  list T -> T -> list T -> N -> option (list T).

(** [AngleFcn<InType, OutType>]: called with [(in, out, num)]. *)
Definition AngleFcn (InType OutType : Type) : Type :=
  list InType -> list OutType -> N -> option (list OutType).

Section ConstArithmeticKernels.
Context {T : Type} `{Arith T}.

Definition XPlusK : ConstArithmeticFcn T := fun inp k out num =>
  for_lanes (fun x => Some (plus x k)) inp (N.to_nat num) 0 out.

Definition XSubK : ConstArithmeticFcn T := fun inp k out num =>
  for_lanes (fun x => Some (minus x k)) inp (N.to_nat num) 0 out.

Definition KSubX : ConstArithmeticFcn T := fun inp k out num =>
  for_lanes (fun x => Some (minus k x)) inp (N.to_nat num) 0 out.

Definition XMultK : ConstArithmeticFcn T := fun inp k out num =>
  for_lanes (fun x => Some (times x k)) inp (N.to_nat num) 0 out.

Definition XDivK : ConstArithmeticFcn T := fun inp k out num =>
  for_lanes (fun x => divide x k) inp (N.to_nat num) 0 out.

Definition KDivX : ConstArithmeticFcn T := fun inp k out num =>
  for_lanes (fun x => divide k x) inp (N.to_nat num) 0 out.

(** The getters return a function pointer.  A pointer can be null ([None]);
    the getters never return one. *)
Definition getXPlusKFcn : option (ConstArithmeticFcn T) := Some XPlusK.
Definition getXSubKFcn : option (ConstArithmeticFcn T) := Some XSubK.
Definition getKSubXFcn : option (ConstArithmeticFcn T) := Some KSubX.
Definition getXMultKFcn : option (ConstArithmeticFcn T) := Some XMultK.
Definition getXDivKFcn : option (ConstArithmeticFcn T) := Some XDivK.
Definition getKDivXFcn : option (ConstArithmeticFcn T) := Some KDivX.

End ConstArithmeticKernels.

Section AngleKernel.
Context {InType OutType : Type}.

(** [getAngle] is declared in [FxptHelpers.hpp]; the kernel is taken over
    any such function. *)
Variable getAngle : InType -> OutType.

Definition AngleLoop : AngleFcn InType OutType := fun inp out num =>
  for_lanes (fun x => Some (getAngle x)) inp (N.to_nat num) 0 out.

Definition getAngleFcn : option (AngleFcn InType OutType) := Some AngleLoop.

End AngleKernel.

End Kernels.
Export Kernels.

(** ** The framework the blocks run in

    [Pothos::DType], ports, the block base class and exceptions, as far as
    the two source files use them. *)
Module Pothos.

#[export] Instance ScalarType_eq_dec : EqDecision ScalarType.
Proof. solve_decision. Defined.

#[export] Instance CType_eq_dec : EqDecision CType.
Proof. solve_decision. Defined.

(** The element type of a run-time [DType]: one of the numeric C++ types,
    or none of them (a custom or unspecified type). *)
Inductive ElemType : Type :=
  | numeric (t : CType)
  | custom.

#[export] Instance ElemType_eq_dec : EqDecision ElemType.
Proof. solve_decision. Defined.

Record DType : Type := mkDType { elemType : ElemType; dimension : N }.

#[export] Instance DType_eq_dec : EqDecision DType.
Proof. solve_decision. Defined.

(** [DType(typeid(T), dimension)], and [DType(typeid(T))] of dimension 1. *)
Definition DType_typeid (t : CType) (dim : N) : DType := mkDType (numeric t) dim.

(** [DType::fromDType(dtype, dimension)]: the same element type at another
    dimension. *)
Definition fromDType (dtype : DType) (dim : N) : DType :=
  mkDType (elemType dtype) dim.

(** [size_t] multiplication wraps at [2^64]. *)
Definition size_t_mul (a b : N) : N := ((a * b) mod 2 ^ 64)%N.

Inductive Exception : Type :=
  | InvalidArgumentException (msg arg : string)
  | ObjectConvertError (msg arg : string)
  | PortAccessError (index : N).

(** How a call ends: it returns, an exception escapes, or its behaviour is
    undefined. *)
Inductive Outcome (A : Type) : Type :=
  | Returns (a : A)
  | Throws (e : Exception)
  | Undefined.
Arguments Returns {A} _.
Arguments Throws {A} _.
Arguments Undefined {A}.

(** What a block does to its surroundings, in call order: the calls it
    makes on the base class, on its ports and on its kernel.  [V] is the
    type of the value a signal carries. *)
Inductive Event (V : Type) : Type :=
  | SetupInput (index : N) (dtype : DType)
  | SetupOutput (index : N) (dtype : DType)
  | RegisterCall (name : string)
  | RegisterProbe (name : string)
  | RegisterSignal (name : string)
  | EmitSignal (name : string) (value : V)
  | InputBuffer (index : N)
  | OutputBuffer (index : N)
  | KernelCall (constant : option V) (num : N)
  | Consume (index : N) (numElements : N)
  | Produce (index : N) (numElements : N).
Arguments SetupInput {V} _ _.
Arguments SetupOutput {V} _ _.
Arguments RegisterCall {V} _.
Arguments RegisterProbe {V} _.
Arguments RegisterSignal {V} _.
Arguments EmitSignal {V} _ _.
Arguments InputBuffer {V} _.
Arguments OutputBuffer {V} _.
Arguments KernelCall {V} _ _.
Arguments Consume {V} _ _.
Arguments Produce {V} _ _.

(** The signals in a log, in the order they were emitted. *)
Fixpoint emitted {V : Type} (events : list (Event V)) : list (string * V) :=
  match events with
  | [] => []
  | EmitSignal name value :: rest => (name, value) :: emitted rest
  | _ :: rest => emitted rest
  end.

Record WorkInfo : Type := mkWorkInfo { minElements : N }.

(** A port: its type, the buffer the host lends it for one [work()] call,
    and the elements consumed or produced by that call so far. *)
Record Port (A : Type) : Type := mkPort {
  dtype : DType;
  buffer : list A;
  pendingElements : N
}.
Arguments mkPort {A} _ _ _.
Arguments dtype {A} _.
Arguments buffer {A} _.
Arguments pendingElements {A} _.

(** The state of the [Pothos::Block] base class. *)
Record Block (InType OutType V : Type) : Type := mkBlock {
  workInfo : WorkInfo;
  inputs : gmap N (Port InType);
  outputs : gmap N (Port OutType);
  log : list (Event V)
}.
Arguments mkBlock {InType OutType V} _ _ _ _.
Arguments workInfo {InType OutType V} _.
Arguments inputs {InType OutType V} _.
Arguments outputs {InType OutType V} _.
Arguments log {InType OutType V} _.

(** Member functions: state passing over the object, ending in an
    [Outcome]. *)
Definition M (S A : Type) : Type := S -> Outcome (A * S).

Definition ret {S A : Type} (a : A) : M S A := fun s => Returns (a, s).

Definition bind {S A B : Type} (m : M S A) (f : A -> M S B) : M S B :=
  fun s =>
    match m s with
    | Returns (a, s') => f a s'
    | Throws e => Throws e
    | Undefined => Undefined
    end.

Definition throw {S A : Type} (e : Exception) : M S A := fun _ => Throws e.
Definition undefined {S A : Type} : M S A := fun _ => Undefined.
Definition get {S : Type} : M S S := fun s => Returns (s, s).
Definition modify {S : Type} (f : S -> S) : M S unit := fun s => Returns (tt, f s).

(** Run a member of a base-class subobject on the whole object. *)
Definition lift {S B A : Type} (proj : S -> B) (upd : B -> S -> S)
    (m : M B A) : M S A :=
  fun s =>
    match m (proj s) with
    | Returns (a, b') => Returns (a, upd b' s)
    | Throws e => Throws e
    | Undefined => Undefined
    end.

#[export] Instance M_ret {S : Type} : MRet (M S) := @ret S.
#[export] Instance M_bind {S : Type} : MBind (M S) :=
  fun A B f m => bind m f.

Section BlockMembers.
Context {InType OutType V : Type}.

Definition emit (e : Event V) : M (Block InType OutType V) unit :=
  modify (fun b => mkBlock (workInfo b) (inputs b) (outputs b) (log b ++ [e])).

Definition setupInput (index : N) (dt : DType) : M (Block InType OutType V) unit :=
  modify (fun b =>
    mkBlock (workInfo b) (<[index := mkPort dt [] 0%N]> (inputs b)) (outputs b) (log b)) ;;
  emit (SetupInput index dt).

Definition setupOutput (index : N) (dt : DType) : M (Block InType OutType V) unit :=
  modify (fun b =>
    mkBlock (workInfo b) (inputs b) (<[index := mkPort dt [] 0%N]> (outputs b)) (log b)) ;;
  emit (SetupOutput index dt).

Definition registerCall (name : string) : M (Block InType OutType V) unit :=
  emit (RegisterCall name).

Definition registerProbe (name : string) : M (Block InType OutType V) unit :=
  emit (RegisterProbe name).

Definition registerSignal (name : string) : M (Block InType OutType V) unit :=
  emit (RegisterSignal name).

Definition emitSignal (name : string) (value : V) : M (Block InType OutType V) unit :=
  emit (EmitSignal name value).

Definition getWorkInfo : M (Block InType OutType V) WorkInfo :=
  b ← get; mret (workInfo b).

(** [this->input(index)]: a pointer to the port, or [PortAccessError] if
    there is none.  A port pointer is modelled by the port's index. *)
Definition input (index : N) : M (Block InType OutType V) N :=
  b ← get;
  match inputs b !! index with
  | Some _ => mret index
  | None => throw (PortAccessError index)
  end.

Definition output (index : N) : M (Block InType OutType V) N :=
  b ← get;
  match outputs b !! index with
  | Some _ => mret index
  | None => throw (PortAccessError index)
  end.

(** [port->dtype()] *)
Definition input_dtype (port : N) : M (Block InType OutType V) DType :=
  b ← get;
  match inputs b !! port with
  | Some p => mret (dtype p)
  | None => undefined
  end.

(** [port->buffer()], converted to an element pointer: the pointer is
    modelled by the port whose buffer it points into. *)
Definition input_buffer (port : N) : M (Block InType OutType V) N :=
  b ← get;
  match inputs b !! port with
  | Some _ => emit (InputBuffer port) ;; mret port
  | None => undefined
  end.

Definition output_buffer (port : N) : M (Block InType OutType V) N :=
  b ← get;
  match outputs b !! port with
  | Some _ => emit (OutputBuffer port) ;; mret port
  | None => undefined
  end.

(** A kernel call [fcn(buffIn, ..., buffOut, num)]: [fcn] reads the memory
    behind [buffIn] and leaves its results behind [buffOut]. *)
Definition call_kernel (fcn : list InType -> list OutType -> option (list OutType))
    (buffIn buffOut : N) : M (Block InType OutType V) unit :=
  b ← get;
  match inputs b !! buffIn, outputs b !! buffOut with
  | Some pin, Some pout =>
      match fcn (buffer pin) (buffer pout) with
      | Some out' =>
          modify (fun b =>
            mkBlock (workInfo b) (inputs b)
              (<[buffOut := mkPort (dtype pout) out' (pendingElements pout)]> (outputs b))
              (log b))
      | None => undefined
      end
  | _, _ => undefined
  end.

(** [port->consume(numElements)] *)
Definition consume (port : N) (numElements : N) : M (Block InType OutType V) unit :=
  b ← get;
  match inputs b !! port with
  | Some p =>
      modify (fun b =>
        mkBlock (workInfo b)
          (<[port := mkPort (dtype p) (buffer p) (pendingElements p + numElements)%N]> (inputs b))
          (outputs b) (log b)) ;;
      emit (Consume port numElements)
  | None => undefined
  end.

(** [port->produce(numElements)] *)
Definition produce (port : N) (numElements : N) : M (Block InType OutType V) unit :=
  b ← get;
  match outputs b !! port with
  | Some p =>
      modify (fun b =>
        mkBlock (workInfo b) (inputs b)
          (<[port := mkPort (dtype p) (buffer p) (pendingElements p + numElements)%N]> (outputs b))
          (log b)) ;;
      emit (Produce port numElements)
  | None => undefined
  end.

End BlockMembers.

(** A block as the host sees it before anything is set up. *)
Definition Block_init {InType OutType V : Type} : Block InType OutType V :=
  mkBlock (mkWorkInfo 0%N) ∅ ∅ [].

End Pothos.
Export Pothos.

(** ** [template <typename T> class ConstArithmetic] *)
Module ConstArithmetic.

Section Class.
Variable t : CType.
#[local] Abbreviation T := (ctype t).

(** The object: the [Pothos::Block] base and the private members.
    [_position] is never initialised nor used. *)
Record Self : Type := mkSelf {
  block : Block T T T;
  _constant : T;
  _position : option N;
  _func : option (ConstArithmeticFcn T)
}.

Definition super {A : Type} (m : M (Block T T T) A) : M Self A :=
  lift block (fun b s => mkSelf b (_constant s) (_position s) (_func s)) m.

(** [T constant() const] *)
Definition constant : M Self T :=
  s ← get; mret (_constant s).

(** [void setConstant(const T& constant)] *)
Definition setConstant (constant : T) : M Self unit :=
  modify (fun s => mkSelf (block s) constant (_position s) (_func s)) ;;
  super (emitSignal "constantChanged" constant).

(** [_func(buffIn, _constant, buffOut, num)]; a call through a null
    pointer is undefined. *)
Definition call_func (buffIn buffOut : N) (num : N) : M Self unit :=
  s ← get;
  match _func s with
  | Some f =>
      super (emit (KernelCall (Some (_constant s)) num)) ;;
      super (call_kernel (fun inp out => f inp (_constant s) out num) buffIn buffOut)
  | None => undefined
  end.

(** [void work() override] *)
Definition work : M Self unit :=
  info ← super getWorkInfo;
  let elems := minElements info in
  if (0 =? elems)%N then mret tt
  else
    input0 ← super (input 0);
    output0 ← super (output 0);
    buffIn ← super (input_buffer input0);
    buffOut ← super (output_buffer output0);
    dt ← super (input_dtype input0);
    call_func buffIn buffOut (size_t_mul elems (dimension dt)) ;;
    super (consume input0 elems) ;;
    super (produce output0 elems).

(** The constructor: member initialisers, then the body. *)
Definition initial (func : option (ConstArithmeticFcn T)) : Self :=
  mkSelf Block_init zero None func.

Definition constructor (constant : T) (dim : N) : M Self unit :=
  let dt := DType_typeid t dim in
  super (setupInput 0 dt) ;;
  super (setupOutput 0 dt) ;;
  super (registerCall "constant") ;;
  super (registerCall "setConstant") ;;
  super (registerProbe "constant") ;;
  super (registerSignal "constantChanged") ;;
  setConstant constant.

(** [new ConstArithmetic<T>(func, constant, dimension)] *)
Definition new (func : option (ConstArithmeticFcn T)) (constant : T) (dim : N)
    : Outcome Self :=
  match constructor constant dim (initial func) with
  | Returns (_, s) => Returns s
  | Throws e => Throws e
  | Undefined => Undefined
  end.

End Class.

Arguments block {t} _.
Arguments _constant {t} _.
Arguments _position {t} _.
Arguments _func {t} _.
Arguments mkSelf {t} _ _ _ _.
Arguments constant {t}.
Arguments setConstant {t} _.
Arguments work {t}.

End ConstArithmetic.

(** ** [template <typename InType, typename OutType> class Angle] *)
Module Angle.

Section Class.
Variables InT OutT : CType.
#[local] Abbreviation InType := (ctype InT).
#[local] Abbreviation OutType := (ctype OutT).
Variable getAngle : InType -> OutType.

(** The block has no signal: no value can be carried by one. *)
Record Self : Type := mkSelf {
  block : Block InType OutType Empty_set;
  _fcn : option (AngleFcn InType OutType)
}.

Definition super {A : Type} (m : M (Block InType OutType Empty_set) A) : M Self A :=
  lift block (fun b s => mkSelf b (_fcn s)) m.

(** [_fcn(in, out, N)] *)
Definition call_fcn (inp out : N) (num : N) : M Self unit :=
  s ← get;
  match _fcn s with
  | Some f =>
      super (emit (KernelCall None num)) ;;
      super (call_kernel (fun i o => f i o num) inp out)
  | None => undefined
  end.

(** [void work(void)] *)
Definition work : M Self unit :=
  info ← super getWorkInfo;
  let elems := minElements info in
  if (elems =? 0)%N then mret tt
  else
    inPort ← super (input 0);
    outPort ← super (output 0);
    inp ← super (input_buffer inPort);
    out ← super (output_buffer outPort);
    dt ← super (input_dtype inPort);
    let N_ := size_t_mul elems (dimension dt) in
    call_fcn inp out N_ ;;
    super (consume inPort elems) ;;
    super (produce outPort elems).

Definition initial : Self := mkSelf Block_init (getAngleFcn getAngle).

Definition constructor (dim : N) : M Self unit :=
  super (setupInput 0 (DType_typeid InT dim)) ;;
  super (setupOutput 0 (DType_typeid OutT dim)).

(** [new Angle<InType, OutType>(dimension)] *)
Definition new (dim : N) : Outcome Self :=
  match constructor dim initial with
  | Returns (_, s) => Returns s
  | Throws e => Throws e
  | Undefined => Undefined
  end.

End Class.

Arguments block {InT OutT} _.
Arguments _fcn {InT OutT} _.
Arguments mkSelf {InT OutT} _ _.
Arguments work {InT OutT}.

End Angle.

(** ** Registration: the two factories *)
Module Registration.

Section Factories.

(** [Pothos::Object] and its [convert<type>()], which returns the value or
    throws; [DType::toString()]; [getAngle] of [FxptHelpers.hpp].  They
    come from outside the two files. *)
Variable Object : Type.
Variable convert : forall type : CType, Object -> Exception + ctype type.
Variable toString : DType -> string.
Variable getAngle : forall type : ScalarType, ctype (complex type) -> ctype (scalar type).

(** What a factory returns through [Pothos::Block*]. *)
Definition ConstArithmeticBlock : Type := { type : CType & ConstArithmetic.Self type }.
Definition AngleBlock : Type :=
  { type : ScalarType & Angle.Self (complex type) (scalar type) }.

Section makeConstArithmetic.
Variable dtype : DType.
Variable operation : string.
Variable constant : Object.

(** One expansion of the macro [ifTypeDeclareFactory__]; [otherwise] is the
    code that follows it. *)
Definition ifTypeDeclareFactory__ (type : CType) (opKey : string)
    (func : option (ConstArithmeticFcn (ctype type)))
    (otherwise : Outcome ConstArithmeticBlock) : Outcome ConstArithmeticBlock :=
  if bool_decide (fromDType dtype 1 = DType_typeid type 1) && String.eqb opKey operation
  then
    match convert type constant with
    | inr k =>
        match ConstArithmetic.new type func k (dimension dtype) with
        | Returns b => Returns (existT type b)
        | Throws e => Throws e
        | Undefined => Undefined
        end
    | inl e => Throws e
    end
  else otherwise.

Definition ifTypeDeclareFactory_ (type : CType)
    (otherwise : Outcome ConstArithmeticBlock) : Outcome ConstArithmeticBlock :=
  ifTypeDeclareFactory__ type "X+K" getXPlusKFcn
  (ifTypeDeclareFactory__ type "X-K" getXSubKFcn
  (ifTypeDeclareFactory__ type "K-X" getKSubXFcn
  (ifTypeDeclareFactory__ type "X*K" getXMultKFcn
  (ifTypeDeclareFactory__ type "X/K" getXDivKFcn
  (ifTypeDeclareFactory__ type "K/X" getKDivXFcn
   otherwise))))).

Definition ifTypeDeclareFactory (type : ScalarType)
    (otherwise : Outcome ConstArithmeticBlock) : Outcome ConstArithmeticBlock :=
  ifTypeDeclareFactory_ (scalar type)
  (ifTypeDeclareFactory_ (complex type)
   otherwise).

Definition makeConstArithmetic : Outcome ConstArithmeticBlock :=
  ifTypeDeclareFactory int8_t
  (ifTypeDeclareFactory int16_t
  (ifTypeDeclareFactory int32_t
  (ifTypeDeclareFactory int64_t
  (ifTypeDeclareFactory uint8_t
  (ifTypeDeclareFactory uint16_t
  (ifTypeDeclareFactory uint32_t
  (ifTypeDeclareFactory uint64_t
  (ifTypeDeclareFactory float
  (ifTypeDeclareFactory double
  (Throws (InvalidArgumentException
     ("makeConstArithmetic(" +:+ toString dtype +:+ ", operation=" +:+ operation +:+ ")")
     "unsupported args"))))))))))).

End makeConstArithmetic.

Section angleFactory.
Variable dtype : DType.

Definition angle_ifTypeDeclareFactory_ (type : ScalarType)
    (otherwise : Outcome AngleBlock) : Outcome AngleBlock :=
  if bool_decide (fromDType dtype 1 = DType_typeid (complex type) 1)
  then
    match Angle.new (complex type) (scalar type) (getAngle type) (dimension dtype) with
    | Returns b => Returns (existT type b)
    | Throws e => Throws e
    | Undefined => Undefined
    end
  else otherwise.

Definition angleFactory : Outcome AngleBlock :=
  angle_ifTypeDeclareFactory_ double
  (angle_ifTypeDeclareFactory_ float
  (angle_ifTypeDeclareFactory_ int64_t
  (angle_ifTypeDeclareFactory_ int32_t
  (angle_ifTypeDeclareFactory_ int16_t
  (angle_ifTypeDeclareFactory_ int8_t
  (Throws (InvalidArgumentException
     ("angleFactory(" +:+ toString dtype +:+ ")") "unsupported type"))))))).

End angleFactory.

End Factories.

End Registration.
Export Registration.

(** ** The host

    Between two calls the host may call any public member of a
    [ConstArithmetic] block, and it lends the ports their buffers. *)
Module Host.
Import ConstArithmetic.

Section Driver.
Variable t : CType.
#[local] Abbreviation T := (ctype t).

Inductive Call : Type :=
  | CallConstant
  | CallSetConstant (value : T)
  | CallWork
  | Supply (info : WorkInfo) (ins outs : gmap N (Port T)).

(** The host sets the work info and the ports for the next [work()]; it has
    no access to the private members. *)
Definition supply (info : WorkInfo) (ins outs : gmap N (Port T)) : M (Self t) unit :=
  modify (fun s =>
    mkSelf (mkBlock info ins outs (log (block s)))
           (_constant s) (_position s) (_func s)).

Definition perform (c : Call) : M (Self t) unit :=
  match c with
  | CallConstant => constant ≫= fun _ => mret tt
  | CallSetConstant value => setConstant value
  | CallWork => work
  | Supply info ins outs => supply info ins outs
  end.

Fixpoint perform_all (calls : list Call) : M (Self t) unit :=
  match calls with
  | [] => mret tt
  | c :: rest => perform c ;; perform_all rest
  end.

Definition is_setConstant (c : Call) : bool :=
  match c with CallSetConstant _ => true | _ => false end.

End Driver.

Arguments CallConstant {t}.
Arguments CallSetConstant {t} _.
Arguments CallWork {t}.
Arguments Supply {t} _ _ _.
Arguments supply {t} _ _ _.
Arguments perform {t} _.
Arguments perform_all {t} _.
Arguments is_setConstant {t} _.

End Host.

(** ** Example blocks *)
Module Examples.

(** [ConstArithmetic<int32_t>] for "K-X" with constant 10, lent three
    elements of dimension 1. *)
Definition int32_KSubX : ConstArithmetic.Self (scalar int32_t) :=
  ConstArithmetic.mkSelf (t := scalar int32_t)
    (mkBlock (mkWorkInfo 3)
       {[ 0%N := mkPort (DType_typeid (scalar int32_t) 1) [1; 2; 3]%Z 0%N ]}
       {[ 0%N := mkPort (DType_typeid (scalar int32_t) 1) [0; 0; 0]%Z 0%N ]}
       [])
    10%Z None getKSubXFcn.

(** [ConstArithmetic<float>] for "X+K" with constant 3.0, lent three
    elements of dimension 1. *)
Definition float_XPlusK : ConstArithmetic.Self (scalar float) :=
  ConstArithmetic.mkSelf (t := scalar float)
    (mkBlock (mkWorkInfo 3)
       {[ 0%N := mkPort (DType_typeid (scalar float) 1)
                   [f32 1 0; f32 2 0; SFopp (f32 3 0)] 0%N ]}
       {[ 0%N := mkPort (DType_typeid (scalar float) 1) [f32 0 0; f32 0 0; f32 0 0] 0%N ]}
       [])
    (f32 3 0) None getXPlusKFcn.

(** The same block with nothing to do. *)
Definition float_idle : ConstArithmetic.Self (scalar float) :=
  ConstArithmetic.mkSelf (t := scalar float)
    (mkBlock (mkWorkInfo 0)
       {[ 0%N := mkPort (DType_typeid (scalar float) 1) [] 0%N ]}
       {[ 0%N := mkPort (DType_typeid (scalar float) 1) [] 0%N ]}
       [])
    (f32 3 0) None getXPlusKFcn.

(** A stand-in for [getAngle] on [std::complex<int16_t>]: any function of
    the element will do for running the block. *)
Definition sample_getAngle (z : ctype (complex int16_t)) : ctype (scalar int16_t) :=
  real z.

(** [Angle<std::complex<int16_t>, int16_t>] of dimension 2, lent one
    element. *)
Definition int16_Angle : Angle.Self (complex int16_t) (scalar int16_t) :=
  Angle.mkSelf (InT := complex int16_t) (OutT := scalar int16_t)
    (mkBlock (mkWorkInfo 1)
       {[ 0%N := mkPort (DType_typeid (complex int16_t) 2)
                   [mkComplex 1 0; mkComplex 0 1]%Z 0%N ]}
       {[ 0%N := mkPort (DType_typeid (scalar int16_t) 2) [0; 0]%Z 0%N ]}
       [])
    (getAngleFcn sample_getAngle).

Definition int16_Angle_idle : Angle.Self (complex int16_t) (scalar int16_t) :=
  Angle.mkSelf (InT := complex int16_t) (OutT := scalar int16_t)
    (mkBlock (mkWorkInfo 0) ∅ ∅ [])
    (getAngleFcn sample_getAngle).

(** Stand-ins for what the factories take from outside.  An object holds
    a number or a vector of numbers; a number converts to [int8_t] and to
    [int32_t] when it is in range, and nothing else converts. *)
Inductive SampleObject : Type :=
  | NumberObject (value : Z)
  | VectorObject (values : list Z).

Definition sample_convert (type : CType) (object : SampleObject)
    : Exception + ctype type :=
  match object with
  | NumberObject value =>
      match type return Exception + ctype type with
      | scalar int8_t =>
          if (int_min 8 <=? value)%Z && (value <=? int_max 8)%Z then inr value
          else inl (ObjectConvertError "Pothos::Object::convert()" "out of range")
      | scalar int32_t =>
          if (int_min 32 <=? value)%Z && (value <=? int_max 32)%Z then inr value
          else inl (ObjectConvertError "Pothos::Object::convert()" "out of range")
      | _ => inl (ObjectConvertError "Pothos::Object::convert()" "no conversion")
      end
  | VectorObject _ =>
      inl (ObjectConvertError "Pothos::Object::convert()" "not a number")
  end.

Definition sample_toString (dtype : DType) : string :=
  match elemType dtype with
  | numeric (scalar int8_t) => "int8"
  | numeric (scalar int32_t) => "int32"
  | numeric (complex int16_t) => "complex_int16"
  | numeric _ => "numeric"
  | custom => "custom"
  end.

Definition sample_getAngle_at (type : ScalarType) (z : ctype (complex type))
    : ctype (scalar type) :=
  real z.

End Examples.

(** ** Vocabulary of the properties *)

(** The quotient [x / y] does not fit the type [s]: only [min / -1], on the
    signed types that are not promoted to a wider [int]. *)
Definition quotient_overflow (s : ScalarType) (x y : Z) : Prop :=
  (s = int32_t \/ s = int64_t) /\ x = int_min (bits s) /\ y = (-1)%Z.

(** The scalar values held by a run of elements. *)
Definition scalar_lanes (t : CType) (elements : list (ctype t)) : nat :=
  length (concat (components t <$> elements)).

(** The operation names the const-arithmetic factory knows. *)
Definition operations : list string := ["X+K"; "X-K"; "K-X"; "X*K"; "X/K"; "K/X"].

(** The kernel each operation name stands for. *)
Definition kernel_for {T : Type} `{Arith T} (operation : string)
    : option (ConstArithmeticFcn T) :=
  if String.eqb "X+K" operation then Some XPlusK
  else if String.eqb "X-K" operation then Some XSubK
  else if String.eqb "K-X" operation then Some KSubX
  else if String.eqb "X*K" operation then Some XMultK
  else if String.eqb "X/K" operation then Some XDivK
  else if String.eqb "K/X" operation then Some KDivX
  else None.

(** The supported set of each factory: every numeric type with one of the
    six operations; the complex types over a signed component. *)
Definition constArithmetic_supported (dtype : DType) (operation : string) : bool :=
  match elemType dtype with
  | numeric _ => existsb (fun opKey => String.eqb opKey operation) operations
  | custom => false
  end.

Definition angle_supported (dtype : DType) : bool :=
  match elemType dtype with
  | numeric (complex type) => is_signed type
  | _ => false
  end.

(** Whenever [m] returns, the states before and after are related by [R]. *)
Definition respects {S A : Type} (R : S -> S -> Prop) (m : M S A) : Prop :=
  forall s a s', m s = Returns (a, s') -> R s s'.

(** A base-class member is quiet when it only appends to the log, and
    neither a signal nor a kernel call. *)
Definition quiet_step {InType OutType V : Type} (b b' : Block InType OutType V) : Prop :=
  exists events,
    log b' = log b ++ events /\ emitted events = [] /\
    forall k num, KernelCall k num ∉ events.

Definition quiet {InType OutType V A : Type} (m : M (Block InType OutType V) A) : Prop :=
  respects quiet_step m.


(** The private members of a [ConstArithmetic] block are as before, no
    signal was emitted, and every kernel call logged in between was passed
    the stored constant. *)
Definition steady {t : CType} (s s' : ConstArithmetic.Self t) : Prop :=
  ConstArithmetic._constant s' = ConstArithmetic._constant s /\
  ConstArithmetic._func s' = ConstArithmetic._func s /\
  ConstArithmetic._position s' = ConstArithmetic._position s /\
  exists events,
    log (ConstArithmetic.block s') = log (ConstArithmetic.block s) ++ events /\
    emitted events = [] /\
    forall k num, KernelCall k num ∈ events -> k = Some (ConstArithmetic._constant s).

(** Unfolding the member functions down to state passing. *)
Ltac member_unfold :=
  unfold ConstArithmetic.work, ConstArithmetic.call_func, ConstArithmetic.super,
         ConstArithmetic.setConstant, ConstArithmetic.constant,
         Angle.work, Angle.call_fcn, Angle.super,
         getWorkInfo, input, output, input_buffer, output_buffer, input_dtype,
         call_kernel, consume, produce, setupInput, setupOutput,
         registerCall, registerProbe, registerSignal, emitSignal, emit,
         mbind, mret, M_bind, M_ret, bind, ret, lift, get, modify, throw, undefined
    in *.

Create HintDb members.

(** ** Vocabulary of the further properties *)

(** The values of an integer type. *)
Definition in_range (s : ScalarType) (z : Z) : Prop :=
  if is_signed s
  then (- 2 ^ (bits s - 1) <= z < 2 ^ (bits s - 1))%Z
  else (0 <= z < 2 ^ bits s)%Z.

(** The exact result [z] of [+], [-] or [*] is one the language defines at
    type [s]: the signed types of 32 and 64 bits overflow outside their
    range, the others reduce modulo [2^w]. *)
Definition result_defined (s : ScalarType) (z : Z) : Prop :=
  is_signed s = true -> (32 <= bits s)%Z -> in_range s z.


(** The host lends an [Angle] block its buffers. *)
Definition Angle_supply {InT OutT : CType} (info : WorkInfo)
    (ins : gmap N (Port (ctype InT))) (outs : gmap N (Port (ctype OutT)))
    : M (Angle.Self InT OutT) unit :=
  modify (fun s =>
    Angle.mkSelf (mkBlock info ins outs (log (Angle.block s))) (Angle._fcn s)).

(** The constants a sequence of host calls sets, in order. *)
Fixpoint constants_set {t : CType} (calls : list (Host.Call t)) : list (ctype t) :=
  match calls with
  | [] => []
  | Host.CallSetConstant value :: rest => value :: constants_set rest
  | _ :: rest => constants_set rest
  end.

(** The block has its input port 0 and its output port 0. *)
Definition has_ports {t : CType} (s : ConstArithmetic.Self t) : Prop :=
  is_Some (inputs (ConstArithmetic.block s) !! 0%N) /\
  is_Some (outputs (ConstArithmetic.block s) !! 0%N).

(** A host call that leaves the ports 0 in place. *)
Definition keeps_ports {t : CType} (c : Host.Call t) : Prop :=
  match c with
  | Host.Supply _ ins outs => is_Some (ins !! 0%N) /\ is_Some (outs !! 0%N)
  | _ => True
  end.

(** * Properties *)

(** ** The kernel loop *)
Section LoopFacts.
Context {InType OutType : Type}.
Implicit Types (body : InType -> option OutType).
Implicit Types (inp : list InType) (out : list OutType).

Lemma for_lanes_length body inp count i out out' :
  for_lanes body inp count i out = Some out' -> length out' = length out.
Proof.
  revert i out. induction count as [|count IH]; simpl; intros i out Hrun.
  - congruence.
  - destruct (inp !! i) as [x|]; simpl in Hrun; [|discriminate].
    destruct (body x) as [y|]; simpl in Hrun; [|discriminate].
    destruct (i <? length out)%nat; [|discriminate].
    apply IH in Hrun. rewrite Hrun. apply length_insert.
Qed.

(** Lanes outside [i, i + count) keep their contents. *)
Lemma for_lanes_frame body inp count i out out' :
  for_lanes body inp count i out = Some out' ->
  forall j, (j < i \/ i + count <= j)%nat -> out' !! j = out !! j.
Proof.
  revert i out. induction count as [|count IH]; simpl; intros i out Hrun j Hj.
  - congruence.
  - destruct (inp !! i) as [x|]; simpl in Hrun; [|discriminate].
    destruct (body x) as [y|]; simpl in Hrun; [|discriminate].
    destruct (i <? length out)%nat; [|discriminate].
    rewrite (IH _ _ Hrun j) by lia.
    apply list_lookup_insert_ne. lia.
Qed.

(** Every lane in [i, i + count) holds the body's result on its input. *)
Lemma for_lanes_lookup body inp count i out out' :
  for_lanes body inp count i out = Some out' ->
  forall j, (i <= j < i + count)%nat ->
  exists x y, inp !! j = Some x /\ body x = Some y /\ out' !! j = Some y.
Proof.
  revert i out. induction count as [|count IH]; simpl; intros i out Hrun j Hj.
  - lia.
  - destruct (inp !! i) as [x|] eqn:Hx; simpl in Hrun; [|discriminate].
    destruct (body x) as [y|] eqn:Hy; simpl in Hrun; [|discriminate].
    destruct (i <? length out)%nat eqn:Hlt; [|discriminate].
    apply Nat.ltb_lt in Hlt.
    destruct (decide (j = i)) as [->|Hne].
    + exists x, y. repeat split; try assumption.
      rewrite (for_lanes_frame _ _ _ _ _ _ Hrun i) by lia.
      apply list_lookup_insert_eq. assumption.
    + apply (IH _ _ Hrun j). lia.
Qed.

(** The loop has a result when both buffers hold the lanes it visits and
    the body has a result on each. *)
Lemma for_lanes_defined body inp count i out :
  (i + count <= length inp)%nat -> (i + count <= length out)%nat ->
  (forall j x, (i <= j < i + count)%nat -> inp !! j = Some x -> is_Some (body x)) ->
  is_Some (for_lanes body inp count i out).
Proof.
  revert i out. induction count as [|count IH]; simpl; intros i out Hin Hout Hbody.
  - eauto.
  - destruct (lookup_lt_is_Some_2 inp i) as [x Hx]; [lia|].
    rewrite Hx. simpl.
    destruct (Hbody i x) as [y Hy]; [lia|assumption|].
    rewrite Hy. simpl.
    destruct (Nat.ltb_spec i (length out)); [|lia].
    apply IH.
    + lia.
    + rewrite length_insert. lia.
    + intros j x' Hj. apply Hbody. lia.
Qed.

(** A lane whose body has no result leaves the loop without one. *)
Lemma for_lanes_undefined body inp count i out j x :
  (i <= j < i + count)%nat -> inp !! j = Some x -> body x = None ->
  for_lanes body inp count i out = None.
Proof.
  revert i out. induction count as [|count IH]; simpl; intros i out Hj Hx Hbody.
  - lia.
  - destruct (inp !! i) as [x0|] eqn:Hx0; simpl; [|reflexivity].
    destruct (body x0) as [y|] eqn:Hy; simpl; [|reflexivity].
    destruct (i <? length out)%nat; [|reflexivity].
    apply IH; [|assumption..].
    destruct (decide (j = i)) as [->|]; [congruence|lia].
Qed.

(** A total body: the loop's result, lane by lane. *)
Lemma for_lanes_total (f : InType -> OutType) inp out (num : nat) :
  (num <= length inp)%nat -> (num <= length out)%nat ->
  exists out',
    for_lanes (fun x => Some (f x)) inp num 0 out = Some out' /\
    length out' = length out /\
    (forall i x, (i < num)%nat -> inp !! i = Some x -> out' !! i = Some (f x)) /\
    (forall i, (num <= i)%nat -> out' !! i = out !! i).
Proof.
  intros Hin Hout.
  destruct (for_lanes_defined (fun x => Some (f x)) inp num 0 out) as [out' Hrun];
    [lia|lia|eauto|].
  exists out'. split; [assumption|]. split; [|split].
  - eapply for_lanes_length, Hrun.
  - intros i x Hi Hx.
    destruct (for_lanes_lookup _ _ _ _ _ _ Hrun i) as (x' & y & Hx' & Hy & Hlook); [lia|].
    congruence.
  - intros i Hi. apply (for_lanes_frame _ _ _ _ _ _ Hrun). lia.
Qed.

End LoopFacts.

(** ** The kernels *)

(** The angle kernel writes [getAngle(in[i])] to every lane [i < num],
    whatever [getAngle] is. *)
Lemma AngleLoop_lanes {InType OutType : Type} (getAngle : InType -> OutType)
    (inp : list InType) (out : list OutType) (num : N) :
  (N.to_nat num <= length inp)%nat -> (N.to_nat num <= length out)%nat ->
  exists out',
    AngleLoop getAngle inp out num = Some out' /\
    length out' = length out /\
    (forall i x, (i < N.to_nat num)%nat -> inp !! i = Some x ->
                 out' !! i = Some (getAngle x)) /\
    (forall i, (N.to_nat num <= i)%nat -> out' !! i = out !! i).
Proof. intros Hin Hout. unfold AngleLoop. now apply for_lanes_total. Qed.

(** The four kernels without a division have a result whenever both
    buffers hold [num] elements. *)
Lemma total_kernels_defined {T : Type} `{Arith T} (inp out : list T) (k : T) (num : N) :
  (N.to_nat num <= length inp)%nat -> (N.to_nat num <= length out)%nat ->
  is_Some (XPlusK inp k out num) /\ is_Some (XSubK inp k out num) /\
  is_Some (KSubX inp k out num) /\ is_Some (XMultK inp k out num).
Proof.
  intros Hin Hout.
  repeat split; apply for_lanes_defined; try lia; intros j x _ _; eauto.
Qed.

(** C1: for every element type, constant and input buffer, the "X+K" kernel
    writes [in[i] + k] and the "K-X" kernel writes [k - in[i]] to every lane
    [i < num] (and to no other lane); on 32-bit floats "X+K" with constant
    3.0 maps [1.0, 2.0, -3.0] to [4.0, 5.0, 0.0], and on int32 "K-X" with
    constant 10 maps [1, 2, 3] to [9, 8, 7]. *)
Theorem XPlusK_KSubX_lanes :
  (forall (T : Type) (A : Arith T) (inp out : list T) (k : T) (num : N),
      (N.to_nat num <= length inp)%nat -> (N.to_nat num <= length out)%nat ->
      (exists f out',
          getXPlusKFcn = Some f /\ f inp k out num = Some out' /\
          length out' = length out /\
          (forall i x, (i < N.to_nat num)%nat -> inp !! i = Some x ->
                       out' !! i = Some (plus x k)) /\
          (forall i, (N.to_nat num <= i)%nat -> out' !! i = out !! i)) /\
      (exists f out',
          getKSubXFcn = Some f /\ f inp k out num = Some out' /\
          length out' = length out /\
          (forall i x, (i < N.to_nat num)%nat -> inp !! i = Some x ->
                       out' !! i = Some (minus k x)) /\
          (forall i, (N.to_nat num <= i)%nat -> out' !! i = out !! i))) /\
  @XPlusK (ctype (scalar float)) _
     [f32 1 0; f32 2 0; SFopp (f32 3 0)] (f32 3 0) [zero; zero; zero] 3%N
    = Some [f32 4 0; f32 5 0; f32 0 0] /\
  @KSubX (ctype (scalar int32_t)) _ [1; 2; 3]%Z 10%Z [0; 0; 0]%Z 3%N
    = Some [9; 8; 7]%Z.
Proof.
  split; [|split].
  - intros T A inp out k num Hin Hout. split.
    + destruct (for_lanes_total (fun x => plus x k) inp out (N.to_nat num) Hin Hout)
        as (out' & Hrun & Hrest).
      exists XPlusK, out'. repeat split; try apply Hrest; assumption.
    + destruct (for_lanes_total (fun x => minus k x) inp out (N.to_nat num) Hin Hout)
        as (out' & Hrun & Hrest).
      exists KSubX, out'. repeat split; try apply Hrest; assumption.
  - vm_compute. reflexivity.
  - vm_compute. reflexivity.
Qed.

Lemma XPlusK_KSubX_lanes_witness :
  exists f out',
    @getXPlusKFcn (ctype (scalar uint8_t)) _ = Some f /\
    f [250; 7]%Z 10%Z [0; 0; 0]%Z 2%N = Some out' /\
    length out' = 3%nat /\
    (forall i x, (i < 2)%nat -> [250; 7]%Z !! i = Some x ->
                 out' !! i = Some (int_add false 8 x 10)) /\
    (forall i, (2 <= i)%nat -> out' !! i = [0; 0; 0]%Z !! i).
Proof.
  destruct XPlusK_KSubX_lanes as [Hgen _].
  destruct (Hgen (ctype (scalar uint8_t)) _ [250; 7]%Z [0; 0; 0]%Z 10%Z 2%N) as [Hplus _].
  - simpl. lia.
  - simpl. lia.
  - exact Hplus.
Defined.

(** ** Integer division *)

(** On an integral type the operators are those of [int_arith]. *)
Lemma scalar_arith_integral (s : ScalarType) :
  is_integral s = true ->
  existT (P := Arith) (sval s) (scalar_arith s)
  = existT (P := Arith) Z (int_arith (is_signed s) (bits s)).
Proof. destruct s; simpl; intros H; try reflexivity; discriminate. Qed.

Lemma quot_overflows_false (s : ScalarType) (x y : Z) :
  is_integral s = true -> ~ quotient_overflow s x y ->
  quot_overflows (is_signed s) (bits s) x y = false.
Proof.
  intros Hs Hno. unfold quot_overflows.
  destruct (andb _ _) eqn:E; [|reflexivity].
  exfalso. apply Hno.
  repeat (apply andb_prop in E; destruct E as [E ?]).
  repeat split.
  - destruct s; simpl in *; try discriminate; auto.
  - now apply Z.eqb_eq.
  - now apply Z.eqb_eq.
Qed.

Lemma int_div_defined (s : ScalarType) (x y : Z) :
  is_integral s = true -> y <> 0%Z -> ~ quotient_overflow s x y ->
  int_div (is_signed s) (bits s) x y
  = Some (int_wrap (is_signed s) (bits s) (Z.quot x y)).
Proof.
  intros Hs Hy Hno. unfold int_div.
  destruct (Z.eqb_spec y 0); [contradiction|].
  now rewrite quot_overflows_false.
Qed.

Lemma int_div_by_zero (sg : bool) (w x : Z) : int_div sg w x 0 = None.
Proof. reflexivity. Qed.

(** C8 (amended): on an integer type [s], whose operators are those of
    [int_arith], the "X/K" and "K/X" kernels have no runtime guard (a zero
    divisor leaves the loop without a result); when no divisor is zero and
    no lane of [int32_t] or [int64_t] divides the minimum value by -1, every
    division has a result and the kernel completes over all [num] lanes,
    lane [i] holding the truncated quotient. *)
Theorem integer_division_kernels :
  forall (s : ScalarType), is_integral s = true ->
  forall (inp out : list Z) (k : Z) (num : N),
    (N.to_nat num <= length inp)%nat -> (N.to_nat num <= length out)%nat ->
    let A := int_arith (is_signed s) (bits s) in
    existT (P := Arith) (sval s) (scalar_arith s) = existT (P := Arith) Z A /\
    ((k <> 0%Z /\
      forall i x, (i < N.to_nat num)%nat -> inp !! i = Some x ->
                  ~ quotient_overflow s x k) ->
     exists out',
       @XDivK Z A inp k out num = Some out' /\ length out' = length out /\
       forall i x, (i < N.to_nat num)%nat -> inp !! i = Some x ->
         out' !! i = Some (int_wrap (is_signed s) (bits s) (Z.quot x k))) /\
    ((forall i x, (i < N.to_nat num)%nat -> inp !! i = Some x ->
                  x <> 0%Z /\ ~ quotient_overflow s k x) ->
     exists out',
       @KDivX Z A inp k out num = Some out' /\ length out' = length out /\
       forall i x, (i < N.to_nat num)%nat -> inp !! i = Some x ->
         out' !! i = Some (int_wrap (is_signed s) (bits s) (Z.quot k x))) /\
    ((0 < num)%N -> @XDivK Z A inp 0%Z out num = None) /\
    (forall i, (i < N.to_nat num)%nat -> inp !! i = Some 0%Z ->
               @KDivX Z A inp k out num = None).
Proof.
  intros s Hs inp out k num Hin Hout A.
  split; [now apply scalar_arith_integral|]. repeat split.
  - intros [Hk Hno].
    destruct (for_lanes_defined (fun x => @divide Z A x k) inp (N.to_nat num) 0 out)
      as [out' Hrun]; [lia|lia| |].
    { intros j x Hj Hx. simpl. rewrite int_div_defined; eauto. apply Hno with j; [lia|done]. }
    exists out'. split; [exact Hrun|]. split; [eapply for_lanes_length, Hrun|].
    intros i x Hi Hx.
    destruct (for_lanes_lookup _ _ _ _ _ _ Hrun i) as (x' & y & Hx' & Hy & Hlook); [lia|].
    rewrite Hlook. rewrite Hx in Hx'. injection Hx' as <-.
    simpl in Hy. rewrite int_div_defined in Hy; eauto.
  - intros Hno.
    destruct (for_lanes_defined (fun x => @divide Z A k x) inp (N.to_nat num) 0 out)
      as [out' Hrun]; [lia|lia| |].
    { intros j x Hj Hx. simpl.
      destruct (Hno j x) as [Hx0 Hov]; [lia|done|].
      rewrite int_div_defined; eauto. }
    exists out'. split; [exact Hrun|]. split; [eapply for_lanes_length, Hrun|].
    intros i x Hi Hx.
    destruct (for_lanes_lookup _ _ _ _ _ _ Hrun i) as (x' & y & Hx' & Hy & Hlook); [lia|].
    rewrite Hlook. rewrite Hx in Hx'. injection Hx' as <-.
    destruct (Hno i x) as [Hx0 Hov]; [lia|done|].
    simpl in Hy. rewrite int_div_defined in Hy; eauto.
  - intros Hnum.
    destruct (lookup_lt_is_Some_2 inp 0) as [x Hx]; [lia|].
    unfold XDivK. apply for_lanes_undefined with (j := 0%nat) (x := x); [lia|done|].
    apply int_div_by_zero.
  - intros i Hi Hx.
    unfold KDivX. apply for_lanes_undefined with (j := i) (x := 0%Z); [lia|done|].
    apply int_div_by_zero.
Qed.

Lemma integer_division_kernels_witness :
  exists out',
    @XDivK Z (int_arith true 32) [7; -7; -2147483648]%Z 2%Z [0; 0; 0]%Z 3%N = Some out' /\
    length out' = 3%nat /\
    forall i x, (i < 3)%nat -> [7; -7; -2147483648]%Z !! i = Some x ->
      out' !! i = Some (int_wrap true 32 (Z.quot x 2)).
Proof.
  destruct (integer_division_kernels int32_t eq_refl
              [7; -7; -2147483648]%Z [0; 0; 0]%Z 2%Z 3%N) as [_ [Hdiv _]].
  - simpl. lia.
  - simpl. lia.
  - apply Hdiv. split.
    + discriminate.
    + intros i x _ _ (_ & _ & Hk). discriminate.
Defined.

(** C8 as stated fails: on [int32_t], "X/K" with the nonzero constant -1
    has no result on the lane holding the minimum value. *)
Lemma XDivK_int32_min_by_minus_one :
  (-1)%Z <> 0%Z /\
  @XDivK (ctype (scalar int32_t)) _ [(-2147483648)%Z] (-1)%Z [0%Z] 1%N = None.
Proof. split; [discriminate|reflexivity]. Qed.

(** ** Member functions as state transformers *)

Section Respects.
Context {S : Type} (R : S -> S -> Prop).
Hypothesis R_refl : forall s, R s s.
Hypothesis R_trans : forall s1 s2 s3, R s1 s2 -> R s2 s3 -> R s1 s3.

Lemma respects_ret {A : Type} (a : A) : respects R (mret a).
Proof. intros s a' s' H. injection H as <- <-. apply R_refl. Qed.

Lemma respects_bind {A B : Type} (m : M S A) (f : A -> M S B) :
  respects R m -> (forall a, respects R (f a)) -> respects R (m ≫= f).
Proof.
  intros Hm Hf s b s' H. unfold mbind, M_bind, bind in H.
  destruct (m s) as [[a s1]| |] eqn:E; try discriminate.
  eapply R_trans; [eapply Hm, E | eapply Hf, H].
Qed.

Lemma respects_throw {A : Type} (e : Exception) : respects R (@throw S A e).
Proof. intros s a s' H. discriminate. Qed.

Lemma respects_undefined {A : Type} : respects R (@undefined S A).
Proof. intros s a s' H. discriminate. Qed.

Lemma respects_get : respects R get.
Proof. intros s a s' H. injection H as <- <-. apply R_refl. Qed.

End Respects.

Lemma emitted_app {V : Type} (l1 l2 : list (Event V)) :
  emitted (l1 ++ l2) = emitted l1 ++ emitted l2.
Proof.
  induction l1 as [|e l1 IH]; simpl; [reflexivity|].
  destruct e; simpl; now rewrite ?IH.
Qed.

Lemma quiet_step_refl {InType OutType V : Type} (b : Block InType OutType V) :
  quiet_step b b.
Proof.
  exists []. split; [now rewrite app_nil_r|]. split; [reflexivity|].
  intros k num H. inversion H.
Qed.

Lemma quiet_step_trans {InType OutType V : Type} (b1 b2 b3 : Block InType OutType V) :
  quiet_step b1 b2 -> quiet_step b2 b3 -> quiet_step b1 b3.
Proof.
  intros (e1 & H1 & S1 & N1) (e2 & H2 & S2 & N2). exists (e1 ++ e2). repeat split.
  - now rewrite H2, H1, app_assoc.
  - now rewrite emitted_app, S1, S2.
  - intros k num [H|H]%elem_of_app; [eapply N1, H | eapply N2, H].
Qed.

Section QuietMembers.
Context {InType OutType V : Type}.
Implicit Types (b : Block InType OutType V).

Lemma quiet_same b b' : log b' = log b -> quiet_step b b'.
Proof.
  intros H. exists []. split; [now rewrite app_nil_r|]. split; [reflexivity|].
  intros k num Hin. inversion Hin.
Qed.

Lemma quiet_getWorkInfo : quiet (InType := InType) (OutType := OutType) (V := V) getWorkInfo.
Proof. intros b a b' H. member_unfold. simplify_eq. apply quiet_step_refl. Qed.

Lemma quiet_input (index : N) : quiet (OutType := OutType) (V := V) (input (InType := InType) index).
Proof.
  intros b a b' H. member_unfold.
  destruct (inputs b !! index); simpl in H; simplify_eq. apply quiet_step_refl.
Qed.

Lemma quiet_output (index : N) : quiet (InType := InType) (V := V) (output (OutType := OutType) index).
Proof.
  intros b a b' H. member_unfold.
  destruct (outputs b !! index); simpl in H; simplify_eq. apply quiet_step_refl.
Qed.

Lemma quiet_input_dtype (port : N) :
  quiet (OutType := OutType) (V := V) (input_dtype (InType := InType) port).
Proof.
  intros b a b' H. member_unfold.
  destruct (inputs b !! port); simpl in H; simplify_eq. apply quiet_step_refl.
Qed.

Lemma quiet_input_buffer (port : N) :
  quiet (OutType := OutType) (V := V) (input_buffer (InType := InType) port).
Proof.
  intros b a b' H. member_unfold.
  destruct (inputs b !! port); simpl in H; simplify_eq.
  eexists [_]. split; [reflexivity|]. split; [reflexivity|].
  intros k num Hin. apply list_elem_of_singleton in Hin. discriminate.
Qed.

Lemma quiet_output_buffer (port : N) :
  quiet (InType := InType) (V := V) (output_buffer (OutType := OutType) port).
Proof.
  intros b a b' H. member_unfold.
  destruct (outputs b !! port); simpl in H; simplify_eq.
  eexists [_]. split; [reflexivity|]. split; [reflexivity|].
  intros k num Hin. apply list_elem_of_singleton in Hin. discriminate.
Qed.

Lemma quiet_call_kernel (fcn : list InType -> list OutType -> option (list OutType))
    (buffIn buffOut : N) :
  quiet (V := V) (call_kernel fcn buffIn buffOut).
Proof.
  intros b a b' H. member_unfold.
  destruct (inputs b !! buffIn) as [pin|]; [|discriminate].
  destruct (outputs b !! buffOut) as [pout|]; [|discriminate].
  destruct (fcn (buffer pin) (buffer pout)); simpl in H; simplify_eq.
  now apply quiet_same.
Qed.

Lemma quiet_consume (port numElements : N) :
  quiet (OutType := OutType) (V := V) (consume (InType := InType) port numElements).
Proof.
  intros b a b' H. member_unfold.
  destruct (inputs b !! port); simpl in H; simplify_eq.
  eexists [_]. split; [reflexivity|]. split; [reflexivity|].
  intros k num Hin. apply list_elem_of_singleton in Hin. discriminate.
Qed.

Lemma quiet_produce (port numElements : N) :
  quiet (InType := InType) (V := V) (produce (OutType := OutType) port numElements).
Proof.
  intros b a b' H. member_unfold.
  destruct (outputs b !! port); simpl in H; simplify_eq.
  eexists [_]. split; [reflexivity|]. split; [reflexivity|].
  intros k num Hin. apply list_elem_of_singleton in Hin. discriminate.
Qed.

End QuietMembers.

#[export] Hint Resolve quiet_getWorkInfo quiet_input quiet_output quiet_input_dtype
  quiet_input_buffer quiet_output_buffer quiet_call_kernel quiet_consume
  quiet_produce : members.

(** ** [ConstArithmetic]: what a call leaves alone *)
Section ConstArithmeticFrame.
Import ConstArithmetic Host.
Context {t : CType}.
Implicit Types (s : Self t).

Lemma steady_refl s : steady s s.
Proof.
  repeat split. exists []. split; [now rewrite app_nil_r|]. split; [reflexivity|].
  intros k num H. inversion H.
Qed.

Lemma steady_trans s1 s2 s3 : steady s1 s2 -> steady s2 s3 -> steady s1 s3.
Proof.
  intros (C1 & F1 & P1 & e1 & L1 & S1 & K1) (C2 & F2 & P2 & e2 & L2 & S2 & K2).
  repeat split; try congruence.
  exists (e1 ++ e2). repeat split.
  - now rewrite L2, L1, app_assoc.
  - now rewrite emitted_app, S1, S2.
  - intros k num [H|H]%elem_of_app; [eauto|].
    rewrite <- C1. eauto.
Qed.

Lemma steady_super {A : Type} (m : M (Block (ctype t) (ctype t) (ctype t)) A) :
  quiet m -> respects steady (super t m).
Proof.
  intros Hm s a s' H. unfold super, lift in H.
  destruct (m (block s)) as [[a' b']| |] eqn:E; simplify_eq.
  destruct (Hm _ _ _ E) as (events & Hlog & Hsig & Hno).
  repeat split. exists events. split; [exact Hlog|]. split; [exact Hsig|].
  intros k num Hin. exfalso. eapply Hno, Hin.
Qed.

Lemma steady_call_func (buffIn buffOut num : N) :
  respects steady (call_func t buffIn buffOut num).
Proof.
  intros s a s' H. unfold call_func in H.
  unfold mbind, M_bind, bind, get in H.
  destruct (_func s) as [f|] eqn:Hf; [|discriminate].
  destruct (super t (emit (KernelCall (Some (_constant s)) num)) s) as [[u s1]| |] eqn:E1;
    try discriminate.
  assert (Hs1 : s1 = mkSelf (mkBlock (workInfo (block s)) (inputs (block s)) (outputs (block s))
                               (log (block s) ++ [KernelCall (Some (_constant s)) num]))
                            (_constant s) (_position s) (_func s)).
  { member_unfold. now simplify_eq. }
  apply steady_trans with s1.
  - subst s1. repeat split. eexists [_]. split; [reflexivity|]. split; [reflexivity|].
    intros k n Hin. apply list_elem_of_singleton in Hin. congruence.
  - eapply (steady_super _ (quiet_call_kernel _ buffIn buffOut)), H.
Qed.

Lemma steady_work : respects steady (work (t := t)).
Proof.
  unfold work.
  apply respects_bind; [apply steady_trans|apply steady_super; auto with members|].
  intros info. destruct (0 =? minElements info)%N.
  { apply respects_ret, steady_refl. }
  repeat (apply respects_bind;
          [apply steady_trans|apply steady_super; auto with members|intros ?]).
  apply respects_bind; [apply steady_trans|apply steady_call_func|intros ?].
  apply respects_bind; [apply steady_trans|apply steady_super; auto with members|intros ?].
  apply steady_super; auto with members.
Qed.

Lemma steady_constant : respects steady (constant (t := t)).
Proof.
  intros s a s' H. member_unfold. simplify_eq. apply steady_refl.
Qed.

Lemma steady_supply (info : WorkInfo) (ins outs : gmap N (Port (ctype t))) :
  respects steady (supply info ins outs).
Proof.
  intros s a s' H. unfold supply in H. member_unfold. simplify_eq.
  repeat split. exists []. split; [simpl; now rewrite app_nil_r|]. split; [reflexivity|].
  intros k num Hin. inversion Hin.
Qed.

Lemma steady_perform (c : Call t) :
  is_setConstant c = false -> respects steady (perform c).
Proof.
  destruct c; simpl; intros Hc; try discriminate.
  - apply respects_bind; [apply steady_trans|apply steady_constant|].
    intros _. apply respects_ret, steady_refl.
  - apply steady_work.
  - apply steady_supply.
Qed.

Lemma steady_perform_all (calls : list (Call t)) :
  Forall (fun c => is_setConstant c = false) calls ->
  respects steady (perform_all calls).
Proof.
  induction 1 as [|c rest Hc _ IH]; simpl.
  - apply respects_ret, steady_refl.
  - apply respects_bind; [apply steady_trans|now apply steady_perform|].
    intros _. exact IH.
Qed.

(** What [setConstant] does. *)
Lemma setConstant_run s (v : ctype t) :
  setConstant v s
  = Returns (tt, mkSelf (mkBlock (workInfo (block s)) (inputs (block s)) (outputs (block s))
                           (log (block s) ++ [EmitSignal "constantChanged" v]))
                        v (_position s) (_func s)).
Proof. reflexivity. Qed.

End ConstArithmeticFrame.

(** ** The step *)

Lemma scalar_lanes_length (t : CType) (elements : list (ctype t)) :
  scalar_lanes t elements
  = (length elements * (if IsComplex t then 2 else 1))%nat.
Proof.
  unfold scalar_lanes. induction elements as [|x l IH]; [reflexivity|].
  rewrite fmap_cons, concat_cons, length_app, IH. destruct t; simpl; lia.
Qed.

Lemma scalar_lanes_take (t : CType) (buf : list (ctype t)) (num : N) :
  (N.to_nat num <= length buf)%nat ->
  scalar_lanes t (take (N.to_nat num) buf)
  = N.to_nat (num * (if IsComplex t then 2 else 1)).
Proof.
  intros H. rewrite scalar_lanes_length, length_take.
  destruct (IsComplex t); lia.
Qed.

Lemma size_t_mul_small (a b : N) : (a * b < 2 ^ 64)%N -> size_t_mul a b = (a * b)%N.
Proof. intros H. unfold size_t_mul. now apply N.mod_small. Qed.

(** One [work()] of a [ConstArithmetic] block that has elements. *)
Lemma ConstArithmetic_work_run (t : CType) (s : ConstArithmetic.Self t)
    (f : ConstArithmeticFcn (ctype t)) (pin pout : Port (ctype t)) (out' : list (ctype t)) :
  let n := minElements (workInfo (ConstArithmetic.block s)) in
  let num := size_t_mul n (dimension (dtype pin)) in
  (0 < n)%N ->
  inputs (ConstArithmetic.block s) !! 0%N = Some pin ->
  outputs (ConstArithmetic.block s) !! 0%N = Some pout ->
  ConstArithmetic._func s = Some f ->
  f (buffer pin) (ConstArithmetic._constant s) (buffer pout) num = Some out' ->
  ConstArithmetic.work s
  = Returns (tt,
      ConstArithmetic.mkSelf
        (mkBlock (workInfo (ConstArithmetic.block s))
           (<[0%N := mkPort (dtype pin) (buffer pin) (pendingElements pin + n)%N]>
              (inputs (ConstArithmetic.block s)))
           (<[0%N := mkPort (dtype pout) out' (pendingElements pout + n)%N]>
              (outputs (ConstArithmetic.block s)))
           (log (ConstArithmetic.block s) ++
              [InputBuffer 0; OutputBuffer 0;
               KernelCall (Some (ConstArithmetic._constant s)) num;
               Consume 0 n; Produce 0 n]))
        (ConstArithmetic._constant s) (ConstArithmetic._position s)
        (ConstArithmetic._func s)).
Proof.
  intros n num Hpos Hin Hout Hf Hk. subst num.
  member_unfold. simpl. fold n.
  destruct n as [|p] eqn:Hn; [lia|]. simpl.
  repeat (first [rewrite Hin | rewrite Hout | rewrite Hf | rewrite Hk
                | rewrite lookup_insert_eq]; simpl).
  rewrite insert_insert_eq, <- !app_assoc. reflexivity.
Qed.

(** One [work()] of an [Angle] block that has elements. *)
Lemma Angle_work_run (InT OutT : CType) (s : Angle.Self InT OutT)
    (f : AngleFcn (ctype InT) (ctype OutT))
    (pin : Port (ctype InT)) (pout : Port (ctype OutT)) (out' : list (ctype OutT)) :
  let n := minElements (workInfo (Angle.block s)) in
  let num := size_t_mul n (dimension (dtype pin)) in
  (0 < n)%N ->
  inputs (Angle.block s) !! 0%N = Some pin ->
  outputs (Angle.block s) !! 0%N = Some pout ->
  Angle._fcn s = Some f ->
  f (buffer pin) (buffer pout) num = Some out' ->
  Angle.work s
  = Returns (tt,
      Angle.mkSelf
        (mkBlock (workInfo (Angle.block s))
           (<[0%N := mkPort (dtype pin) (buffer pin) (pendingElements pin + n)%N]>
              (inputs (Angle.block s)))
           (<[0%N := mkPort (dtype pout) out' (pendingElements pout + n)%N]>
              (outputs (Angle.block s)))
           (log (Angle.block s) ++
              [InputBuffer 0; OutputBuffer 0; KernelCall None num;
               Consume 0 n; Produce 0 n]))
        (Angle._fcn s)).
Proof.
  intros n num Hpos Hin Hout Hf Hk. subst num.
  member_unfold. simpl. fold n.
  destruct n as [|p] eqn:Hn; [lia|]. simpl.
  repeat (first [rewrite Hin | rewrite Hout | rewrite Hf | rewrite Hk
                | rewrite lookup_insert_eq]; simpl).
  rewrite insert_insert_eq, <- !app_assoc. reflexivity.
Qed.

(** C3: with [n > 0] elements available, one [work()] call consumes exactly
    [n] elements on the input port and produces exactly [n] on the output
    port, whatever the dimension [D] and whether or not the elements are
    complex; the kernel is called once, over [n * D] elements, that is
    [n * D * (2 if complex else 1)] scalar lanes of input; the calls come in
    the order buffer accesses, kernel, consume, produce.  The ports hold the
    [n * D] elements the host lends them and the kernel pass has a
    result. *)
Theorem work_consumes_and_produces (n : N) :
  (0 < n)%N ->
  (forall (t : CType) (s : ConstArithmetic.Self t) (f : ConstArithmeticFcn (ctype t))
          (pin pout : Port (ctype t)) (out' : list (ctype t)),
      minElements (workInfo (ConstArithmetic.block s)) = n ->
      inputs (ConstArithmetic.block s) !! 0%N = Some pin ->
      outputs (ConstArithmetic.block s) !! 0%N = Some pout ->
      ConstArithmetic._func s = Some f ->
      let D := dimension (dtype pin) in
      (n * D < 2 ^ 64)%N ->
      (N.to_nat (n * D) <= length (buffer pin))%nat ->
      f (buffer pin) (ConstArithmetic._constant s) (buffer pout) (n * D)%N = Some out' ->
      ConstArithmetic.work s
      = Returns (tt,
          ConstArithmetic.mkSelf
            (mkBlock (workInfo (ConstArithmetic.block s))
               (<[0%N := mkPort (dtype pin) (buffer pin) (pendingElements pin + n)%N]>
                  (inputs (ConstArithmetic.block s)))
               (<[0%N := mkPort (dtype pout) out' (pendingElements pout + n)%N]>
                  (outputs (ConstArithmetic.block s)))
               (log (ConstArithmetic.block s) ++
                  [InputBuffer 0; OutputBuffer 0;
                   KernelCall (Some (ConstArithmetic._constant s)) (n * D)%N;
                   Consume 0 n; Produce 0 n]))
            (ConstArithmetic._constant s) (ConstArithmetic._position s)
            (ConstArithmetic._func s)) /\
      scalar_lanes t (take (N.to_nat (n * D)) (buffer pin))
      = N.to_nat (n * D * (if IsComplex t then 2 else 1))) /\
  (forall (InT OutT : CType) (s : Angle.Self InT OutT)
          (f : AngleFcn (ctype InT) (ctype OutT))
          (pin : Port (ctype InT)) (pout : Port (ctype OutT)) (out' : list (ctype OutT)),
      minElements (workInfo (Angle.block s)) = n ->
      inputs (Angle.block s) !! 0%N = Some pin ->
      outputs (Angle.block s) !! 0%N = Some pout ->
      Angle._fcn s = Some f ->
      let D := dimension (dtype pin) in
      (n * D < 2 ^ 64)%N ->
      (N.to_nat (n * D) <= length (buffer pin))%nat ->
      f (buffer pin) (buffer pout) (n * D)%N = Some out' ->
      Angle.work s
      = Returns (tt,
          Angle.mkSelf
            (mkBlock (workInfo (Angle.block s))
               (<[0%N := mkPort (dtype pin) (buffer pin) (pendingElements pin + n)%N]>
                  (inputs (Angle.block s)))
               (<[0%N := mkPort (dtype pout) out' (pendingElements pout + n)%N]>
                  (outputs (Angle.block s)))
               (log (Angle.block s) ++
                  [InputBuffer 0; OutputBuffer 0; KernelCall None (n * D)%N;
                   Consume 0 n; Produce 0 n]))
            (Angle._fcn s)) /\
      scalar_lanes InT (take (N.to_nat (n * D)) (buffer pin))
      = N.to_nat (n * D * (if IsComplex InT then 2 else 1))).
Proof.
  intros Hpos. split.
  - intros t s f pin pout out' Hn Hin Hout Hf D Hsmall Hlen Hk. split.
    + rewrite <- (size_t_mul_small n D Hsmall) in *. subst n D.
      now apply ConstArithmetic_work_run with (f := f).
    + now apply scalar_lanes_take.
  - intros InT OutT s f pin pout out' Hn Hin Hout Hf D Hsmall Hlen Hk. split.
    + rewrite <- (size_t_mul_small n D Hsmall) in *. subst n D.
      now apply Angle_work_run with (f := f).
    + now apply scalar_lanes_take.
Qed.

Lemma work_consumes_and_produces_witness :
  (ConstArithmetic.work Examples.int32_KSubX
   = Returns (tt,
       ConstArithmetic.mkSelf (t := scalar int32_t)
         (mkBlock (mkWorkInfo 3)
            (<[0%N := mkPort (DType_typeid (scalar int32_t) 1) [1; 2; 3]%Z (0 + 3)%N]>
               {[ 0%N := mkPort (DType_typeid (scalar int32_t) 1) [1; 2; 3]%Z 0%N ]})
            (<[0%N := mkPort (DType_typeid (scalar int32_t) 1) [9; 8; 7]%Z (0 + 3)%N]>
               {[ 0%N := mkPort (DType_typeid (scalar int32_t) 1) [0; 0; 0]%Z 0%N ]})
            ([] ++ [InputBuffer 0; OutputBuffer 0; KernelCall (Some 10%Z) (3 * 1)%N;
                    Consume 0 3; Produce 0 3]))
         10%Z None getKSubXFcn) /\
   scalar_lanes (scalar int32_t) (take (N.to_nat (3 * 1)) [1; 2; 3]%Z)
   = N.to_nat (3 * 1 * 1)) /\
  (Angle.work Examples.int16_Angle
   = Returns (tt,
       Angle.mkSelf (InT := complex int16_t) (OutT := scalar int16_t)
         (mkBlock (mkWorkInfo 1)
            (<[0%N := mkPort (DType_typeid (complex int16_t) 2)
                        [mkComplex 1 0; mkComplex 0 1]%Z (0 + 1)%N]>
               {[ 0%N := mkPort (DType_typeid (complex int16_t) 2)
                           [mkComplex 1 0; mkComplex 0 1]%Z 0%N ]})
            (<[0%N := mkPort (DType_typeid (scalar int16_t) 2) [1; 0]%Z (0 + 1)%N]>
               {[ 0%N := mkPort (DType_typeid (scalar int16_t) 2) [0; 0]%Z 0%N ]})
            ([] ++ [InputBuffer 0; OutputBuffer 0; KernelCall None (1 * 2)%N;
                    Consume 0 1; Produce 0 1]))
         (getAngleFcn Examples.sample_getAngle)) /\
   scalar_lanes (complex int16_t)
     (take (N.to_nat (1 * 2)) [mkComplex 1 0; mkComplex 0 1]%Z)
   = N.to_nat (1 * 2 * 2)).
Proof.
  split.
  - assert (H3 : (0 < 3)%N) by reflexivity.
    destruct (work_consumes_and_produces 3 H3) as [Hca _].
    apply (Hca (scalar int32_t) Examples.int32_KSubX KSubX
               (mkPort (DType_typeid (scalar int32_t) 1) [1; 2; 3]%Z 0%N)
               (mkPort (DType_typeid (scalar int32_t) 1) [0; 0; 0]%Z 0%N)
               [9; 8; 7]%Z); try reflexivity; simpl; lia.
  - assert (H1 : (0 < 1)%N) by reflexivity.
    destruct (work_consumes_and_produces 1 H1) as [_ Hangle].
    apply (Hangle (complex int16_t) (scalar int16_t) Examples.int16_Angle
               (AngleLoop Examples.sample_getAngle)
               (mkPort (DType_typeid (complex int16_t) 2)
                       [mkComplex 1 0; mkComplex 0 1]%Z 0%N)
               (mkPort (DType_typeid (scalar int16_t) 2) [0; 0]%Z 0%N)
               [1; 0]%Z); try reflexivity; simpl; lia.
Defined.

(** C4: with no element available, [work()] returns at once and leaves the
    whole block as it was: no buffer access, no kernel call, no [consume],
    no [produce]. *)
Theorem work_without_elements :
  (forall (t : CType) (s : ConstArithmetic.Self t),
      minElements (workInfo (ConstArithmetic.block s)) = 0%N ->
      ConstArithmetic.work s = Returns (tt, s)) /\
  (forall (InT OutT : CType) (s : Angle.Self InT OutT),
      minElements (workInfo (Angle.block s)) = 0%N ->
      Angle.work s = Returns (tt, s)).
Proof.
  split.
  - intros t s H. member_unfold. simpl. rewrite H. simpl.
    destruct s as [[? ? ? ?] ? ? ?]. reflexivity.
  - intros InT OutT s H. member_unfold. simpl. rewrite H. simpl.
    destruct s as [[? ? ? ?] ?]. reflexivity.
Qed.

Lemma work_without_elements_witness :
  ConstArithmetic.work Examples.float_idle = Returns (tt, Examples.float_idle) /\
  Angle.work Examples.int16_Angle_idle = Returns (tt, Examples.int16_Angle_idle).
Proof.
  destruct work_without_elements as [Hca Hangle]. split.
  - apply (Hca (scalar float) Examples.float_idle). reflexivity.
  - apply (Hangle (complex int16_t) (scalar int16_t) Examples.int16_Angle_idle). reflexivity.
Defined.

(** ** The constant *)

(** C5: [setConstant(v)] overwrites the stored constant and then emits
    "constantChanged" exactly once, carrying [v], whatever the previous
    constant was; [constant()] then returns [v] and changes nothing; and
    every [work()] the host runs before another [setConstant] passes [v] to
    the kernel. *)
Theorem setConstant_notifies_once_and_is_used
    (t : CType) (s : ConstArithmetic.Self t) (v : ctype t) :
  let s1 :=
    ConstArithmetic.mkSelf
      (mkBlock (workInfo (ConstArithmetic.block s)) (inputs (ConstArithmetic.block s))
         (outputs (ConstArithmetic.block s))
         (log (ConstArithmetic.block s) ++ [EmitSignal "constantChanged" v]))
      v (ConstArithmetic._position s) (ConstArithmetic._func s) in
  ConstArithmetic.setConstant v s = Returns (tt, s1) /\
  emitted (log (ConstArithmetic.block s1))
  = emitted (log (ConstArithmetic.block s)) ++ [("constantChanged", v)] /\
  ConstArithmetic.constant s1 = Returns (v, s1) /\
  forall (calls : list (Host.Call t)) (s2 : ConstArithmetic.Self t),
    Forall (fun c => Host.is_setConstant c = false) calls ->
    Host.perform_all calls s1 = Returns (tt, s2) ->
    ConstArithmetic._constant s2 = v /\
    ConstArithmetic.constant s2 = Returns (v, s2) /\
    exists events,
      log (ConstArithmetic.block s2) = log (ConstArithmetic.block s1) ++ events /\
      emitted events = [] /\
      forall k num, KernelCall k num ∈ events -> k = Some v.
Proof.
  intros s1. split; [apply setConstant_run|]. split; [|split].
  - subst s1. simpl. now rewrite emitted_app.
  - reflexivity.
  - intros calls s2 Hcalls Hrun.
    destruct (steady_perform_all calls Hcalls _ _ _ Hrun)
      as (Hc & _ & _ & events & Hlog & Hsig & Hk).
    simpl in Hc. split; [exact Hc|]. split.
    + member_unfold. now rewrite Hc.
    + exists events. auto.
Qed.

(** The spec's example: after [setConstant(5.0)] the step adds 5.0, not the
    3.0 stored before. *)
Lemma setConstant_notifies_once_and_is_used_witness :
  let s1 :=
    ConstArithmetic.mkSelf (t := scalar float)
      (mkBlock (workInfo (ConstArithmetic.block Examples.float_XPlusK))
         (inputs (ConstArithmetic.block Examples.float_XPlusK))
         (outputs (ConstArithmetic.block Examples.float_XPlusK))
         (log (ConstArithmetic.block Examples.float_XPlusK)
            ++ [EmitSignal "constantChanged" (f32 5 0)]))
      (f32 5 0) (ConstArithmetic._position Examples.float_XPlusK)
      (ConstArithmetic._func Examples.float_XPlusK) in
  let s2 :=
    ConstArithmetic.mkSelf (t := scalar float)
      (mkBlock (mkWorkInfo 3)
         {[ 0%N := mkPort (DType_typeid (scalar float) 1)
                     [f32 1 0; f32 2 0; SFopp (f32 3 0)] 3%N ]}
         {[ 0%N := mkPort (DType_typeid (scalar float) 1)
                     [f32 6 0; f32 7 0; f32 2 0] 3%N ]}
         [EmitSignal "constantChanged" (f32 5 0); InputBuffer 0; OutputBuffer 0;
          KernelCall (Some (f32 5 0)) 3; Consume 0 3; Produce 0 3])
      (f32 5 0) None getXPlusKFcn in
  Host.perform_all [Host.CallWork; Host.CallConstant] s1 = Returns (tt, s2) /\
  ConstArithmetic._constant s2 = f32 5 0 /\
  ConstArithmetic.constant s2 = Returns (f32 5 0, s2) /\
  exists events,
    log (ConstArithmetic.block s2) = log (ConstArithmetic.block s1) ++ events /\
    emitted events = [] /\
    forall k num, KernelCall k num ∈ events -> k = Some (f32 5 0).
Proof.
  intros s1 s2.
  assert (Hrun : Host.perform_all [Host.CallWork; Host.CallConstant] s1 = Returns (tt, s2))
    by reflexivity.
  split; [exact Hrun|].
  destruct (setConstant_notifies_once_and_is_used
              (scalar float) Examples.float_XPlusK (f32 5 0)) as (_ & _ & _ & Huse).
  apply (Huse [Host.CallWork; Host.CallConstant] s2).
  - repeat constructor.
  - exact Hrun.
Defined.

(** C9: constructing a [ConstArithmetic] block calls the setter, so
    "constantChanged" is emitted exactly once during construction, carrying
    the initial constant, as the last thing the constructor does. *)
Theorem constructor_emits_constantChanged_once
    (t : CType) (func : option (ConstArithmeticFcn (ctype t)))
    (constant : ctype t) (dim : N) :
  let s :=
    ConstArithmetic.mkSelf
      (mkBlock (mkWorkInfo 0)
         (<[0%N := mkPort (DType_typeid t dim) [] 0%N]> ∅)
         (<[0%N := mkPort (DType_typeid t dim) [] 0%N]> ∅)
         [SetupInput 0 (DType_typeid t dim); SetupOutput 0 (DType_typeid t dim);
          RegisterCall "constant"; RegisterCall "setConstant";
          RegisterProbe "constant"; RegisterSignal "constantChanged";
          EmitSignal "constantChanged" constant])
      constant None func in
  ConstArithmetic.new t func constant dim = Returns s /\
  emitted (log (ConstArithmetic.block s)) = [("constantChanged", constant)] /\
  last (log (ConstArithmetic.block s)) = Some (EmitSignal "constantChanged" constant) /\
  ConstArithmetic._constant s = constant.
Proof. intros s. repeat split. Qed.

(** C10: [work()] never changes the stored constant or the kernel pointer;
    of all the calls the host can make only [setConstant] changes the
    constant, and none changes the kernel pointer. *)
Theorem work_preserves_constant_and_kernel
    (t : CType) (s s' : ConstArithmetic.Self t) :
  (ConstArithmetic.work s = Returns (tt, s') ->
   ConstArithmetic._constant s' = ConstArithmetic._constant s /\
   ConstArithmetic._func s' = ConstArithmetic._func s) /\
  (forall c : Host.Call t,
      Host.perform c s = Returns (tt, s') ->
      ConstArithmetic._func s' = ConstArithmetic._func s /\
      (Host.is_setConstant c = false ->
       ConstArithmetic._constant s' = ConstArithmetic._constant s)).
Proof.
  split.
  - intros H. destruct (steady_work _ _ _ H) as (Hc & Hf & _). auto.
  - intros c H. destruct (Host.is_setConstant c) eqn:Hset.
    + destruct c; try discriminate. simpl in H.
      rewrite setConstant_run in H. simplify_eq. split; [reflexivity|discriminate].
    + destruct (steady_perform c Hset _ _ _ H) as (Hc & Hf & _). auto.
Qed.

Lemma work_preserves_constant_and_kernel_witness :
  let s' :=
    ConstArithmetic.mkSelf (t := scalar int32_t)
      (mkBlock (mkWorkInfo 3)
         {[ 0%N := mkPort (DType_typeid (scalar int32_t) 1) [1; 2; 3]%Z 3%N ]}
         {[ 0%N := mkPort (DType_typeid (scalar int32_t) 1) [9; 8; 7]%Z 3%N ]}
         [InputBuffer 0; OutputBuffer 0; KernelCall (Some 10%Z) 3;
          Consume 0 3; Produce 0 3])
      10%Z None getKSubXFcn in
  ConstArithmetic.work Examples.int32_KSubX = Returns (tt, s') /\
  ConstArithmetic._constant s' = ConstArithmetic._constant Examples.int32_KSubX /\
  ConstArithmetic._func s' = ConstArithmetic._func Examples.int32_KSubX.
Proof.
  intros s'.
  assert (Hrun : ConstArithmetic.work Examples.int32_KSubX = Returns (tt, s'))
    by reflexivity.
  split; [exact Hrun|].
  destruct (work_preserves_constant_and_kernel
              (scalar int32_t) Examples.int32_KSubX s') as [Hwork _].
  exact (Hwork Hrun).
Defined.

(** ** The factories *)

Lemma kernel_for_operation {T : Type} `{Arith T} (operation : string) :
  existsb (fun opKey => String.eqb opKey operation) operations
  = bool_decide (is_Some (kernel_for (T := T) operation)).
Proof.
  unfold kernel_for, operations. cbn [existsb].
  repeat (destruct (String.eqb _ operation); [reflexivity|]). reflexivity.
Qed.

Lemma new_run (t : CType) (func : option (ConstArithmeticFcn (ctype t)))
    (constant : ctype t) (dim : N) :
  ConstArithmetic.new t func constant dim
  = Returns
      (ConstArithmetic.mkSelf
         (mkBlock (mkWorkInfo 0)
            (<[0%N := mkPort (DType_typeid t dim) [] 0%N]> ∅)
            (<[0%N := mkPort (DType_typeid t dim) [] 0%N]> ∅)
            [SetupInput 0 (DType_typeid t dim); SetupOutput 0 (DType_typeid t dim);
             RegisterCall "constant"; RegisterCall "setConstant";
             RegisterProbe "constant"; RegisterSignal "constantChanged";
             EmitSignal "constantChanged" constant])
         constant None func).
Proof. reflexivity. Qed.

Section FactoryFacts.
Variable Object : Type.
Variable convert : forall type : CType, Object -> Exception + ctype type.
Variable toString : DType -> string.
Variable getAngle : forall type : ScalarType, ctype (complex type) -> ctype (scalar type).

Lemma type_test_hit (dtype : DType) (type : CType) :
  elemType dtype = numeric type ->
  bool_decide (fromDType dtype 1 = DType_typeid type 1) = true.
Proof. intros H. apply bool_decide_eq_true. unfold fromDType, DType_typeid. now rewrite H. Qed.

Lemma type_test_miss (dtype : DType) (type : CType) :
  elemType dtype <> numeric type ->
  bool_decide (fromDType dtype 1 = DType_typeid type 1) = false.
Proof.
  intros H. apply bool_decide_eq_false. unfold fromDType, DType_typeid.
  intros E. apply H. now injection E.
Qed.

(** A type other than the requested one: all six tests fail. *)
Lemma ifTypeDeclareFactory__other (dtype : DType) (operation : string) (constant : Object)
    (type : CType) (otherwise : Outcome (ConstArithmeticBlock)) :
  elemType dtype <> numeric type ->
  ifTypeDeclareFactory_ Object convert dtype operation constant type otherwise = otherwise.
Proof.
  intros H. unfold ifTypeDeclareFactory_, ifTypeDeclareFactory__.
  now rewrite (type_test_miss _ _ H).
Qed.

(** The requested type: the operation name picks the kernel. *)
Lemma ifTypeDeclareFactory__same (dtype : DType) (operation : string) (constant : Object)
    (type : CType) (otherwise : Outcome (ConstArithmeticBlock)) :
  elemType dtype = numeric type ->
  ifTypeDeclareFactory_ Object convert dtype operation constant type otherwise
  = match kernel_for operation with
    | Some f =>
        match convert type constant with
        | inr k =>
            match ConstArithmetic.new type (Some f) k (dimension dtype) with
            | Returns b => Returns (existT type b)
            | Throws e => Throws e
            | Undefined => Undefined
            end
        | inl e => Throws e
        end
    | None => otherwise
    end.
Proof.
  intros H. unfold ifTypeDeclareFactory_, ifTypeDeclareFactory__, kernel_for.
  rewrite (type_test_hit _ _ H). cbn [andb].
  repeat (destruct (String.eqb _ operation); [reflexivity|]). reflexivity.
Qed.

Lemma makeConstArithmetic_custom (dtype : DType) (operation : string) (constant : Object) :
  elemType dtype = custom ->
  makeConstArithmetic Object convert toString dtype operation constant
  = Throws (InvalidArgumentException
      ("makeConstArithmetic(" +:+ toString dtype +:+ ", operation=" +:+ operation +:+ ")")
      "unsupported args").
Proof.
  intros H. unfold makeConstArithmetic, ifTypeDeclareFactory.
  now rewrite !ifTypeDeclareFactory__other by (rewrite H; discriminate).
Qed.

Lemma makeConstArithmetic_numeric (dtype : DType) (operation : string) (constant : Object)
    (type : CType) :
  elemType dtype = numeric type ->
  makeConstArithmetic Object convert toString dtype operation constant
  = match kernel_for operation with
    | Some f =>
        match convert type constant with
        | inr k =>
            match ConstArithmetic.new type (Some f) k (dimension dtype) with
            | Returns b => Returns (existT type b)
            | Throws e => Throws e
            | Undefined => Undefined
            end
        | inl e => Throws e
        end
    | None =>
        Throws (InvalidArgumentException
          ("makeConstArithmetic(" +:+ toString dtype +:+ ", operation=" +:+ operation +:+ ")")
          "unsupported args")
    end.
Proof.
  intros H. unfold makeConstArithmetic, ifTypeDeclareFactory.
  destruct type as [[]|[]];
    repeat first
      [ rewrite ifTypeDeclareFactory__other by (rewrite H; discriminate)
      | rewrite (ifTypeDeclareFactory__same _ _ _ _ _ H) ];
    destruct (kernel_for operation); reflexivity.
Qed.

Lemma angle_ifTypeDeclareFactory__other (dtype : DType) (type : ScalarType)
    (otherwise : Outcome (AngleBlock)) :
  elemType dtype <> numeric (complex type) ->
  angle_ifTypeDeclareFactory_ getAngle dtype type otherwise = otherwise.
Proof.
  intros H. unfold angle_ifTypeDeclareFactory_. now rewrite (type_test_miss _ _ H).
Qed.

Lemma angle_ifTypeDeclareFactory__same (dtype : DType) (type : ScalarType)
    (otherwise : Outcome (AngleBlock)) :
  elemType dtype = numeric (complex type) ->
  angle_ifTypeDeclareFactory_ getAngle dtype type otherwise
  = Returns (existT type
      (Angle.mkSelf
         (mkBlock (mkWorkInfo 0)
            (<[0%N := mkPort (DType_typeid (complex type) (dimension dtype)) [] 0%N]> ∅)
            (<[0%N := mkPort (DType_typeid (scalar type) (dimension dtype)) [] 0%N]> ∅)
            [SetupInput 0 (DType_typeid (complex type) (dimension dtype));
             SetupOutput 0 (DType_typeid (scalar type) (dimension dtype))])
         (getAngleFcn (getAngle type)))).
Proof.
  intros H. unfold angle_ifTypeDeclareFactory_. now rewrite (type_test_hit _ _ H).
Qed.

Lemma angleFactory_unsupported (dtype : DType) :
  angle_supported dtype = false ->
  angleFactory toString getAngle dtype
  = Throws (InvalidArgumentException ("angleFactory(" +:+ toString dtype +:+ ")")
                                     "unsupported type").
Proof.
  unfold angle_supported. intros H. unfold angleFactory.
  rewrite !angle_ifTypeDeclareFactory__other; [reflexivity|..];
    intros E; rewrite E in H; discriminate.
Qed.

Lemma angleFactory_supported (dtype : DType) (type : ScalarType) :
  elemType dtype = numeric (complex type) -> is_signed type = true ->
  angleFactory toString getAngle dtype
  = Returns (existT type
      (Angle.mkSelf
         (mkBlock (mkWorkInfo 0)
            (<[0%N := mkPort (DType_typeid (complex type) (dimension dtype)) [] 0%N]> ∅)
            (<[0%N := mkPort (DType_typeid (scalar type) (dimension dtype)) [] 0%N]> ∅)
            [SetupInput 0 (DType_typeid (complex type) (dimension dtype));
             SetupOutput 0 (DType_typeid (scalar type) (dimension dtype))])
         (getAngleFcn (getAngle type)))).
Proof.
  intros H Hs. unfold angleFactory.
  destruct type; try discriminate;
    repeat first
      [ rewrite angle_ifTypeDeclareFactory__other by (rewrite H; discriminate)
      | apply (angle_ifTypeDeclareFactory__same _ _ _ H) ].
Qed.

End FactoryFacts.

(** C6 (amended): a (type, operation) request outside the supported set
    fails with [InvalidArgumentException] carrying the requested type and,
    for const arithmetic, the operation, and no block is built; for every
    advertised pair construction succeeds, with a non-null kernel (the one
    the operation names), whenever the constant converts to the element
    type; the angle factory succeeds on every advertised type. *)
Theorem factories_dispatch
    (Object : Type) (convert : forall type : CType, Object -> Exception + ctype type)
    (toString : DType -> string)
    (getAngle : forall type : ScalarType, ctype (complex type) -> ctype (scalar type)) :
  (forall (dtype : DType) (operation : string) (constant : Object),
      constArithmetic_supported dtype operation = false ->
      makeConstArithmetic Object convert toString dtype operation constant
      = Throws (InvalidArgumentException
          ("makeConstArithmetic(" +:+ toString dtype +:+ ", operation=" +:+ operation +:+ ")")
          "unsupported args")) /\
  (forall dtype : DType,
      angle_supported dtype = false ->
      angleFactory toString getAngle dtype
      = Throws (InvalidArgumentException ("angleFactory(" +:+ toString dtype +:+ ")")
                                         "unsupported type")) /\
  (forall (dtype : DType) (type : CType) (operation : string) (constant : Object)
          (k : ctype type),
      elemType dtype = numeric type ->
      constArithmetic_supported dtype operation = true ->
      convert type constant = inr k ->
      exists b,
        makeConstArithmetic Object convert toString dtype operation constant
        = Returns (existT type b) /\
        ConstArithmetic.new type (kernel_for operation) k (dimension dtype) = Returns b /\
        is_Some (ConstArithmetic._func b) /\
        ConstArithmetic._func b = kernel_for operation) /\
  (forall (dtype : DType) (type : ScalarType),
      elemType dtype = numeric (complex type) ->
      angle_supported dtype = true ->
      exists b,
        angleFactory toString getAngle dtype = Returns (existT type b) /\
        Angle.new (complex type) (scalar type) (getAngle type) (dimension dtype)
        = Returns b /\
        is_Some (Angle._fcn b)).
Proof.
  repeat split.
  - intros dtype operation constant H. unfold constArithmetic_supported in H.
    destruct (elemType dtype) as [type|] eqn:E.
    + rewrite (makeConstArithmetic_numeric _ _ _ _ _ _ type E).
      rewrite (kernel_for_operation (T := ctype type)) in H.
      apply bool_decide_eq_false in H.
      destruct (kernel_for operation); [|reflexivity].
      exfalso. apply H. eauto.
    + now apply makeConstArithmetic_custom.
  - intros dtype H. now apply angleFactory_unsupported.
  - intros dtype type operation constant k E H Hk.
    unfold constArithmetic_supported in H. rewrite E in H.
    rewrite (kernel_for_operation (T := ctype type)) in H.
    apply bool_decide_eq_true in H. destruct H as [f Hf].
    rewrite (makeConstArithmetic_numeric _ _ _ _ _ _ type E), Hf, Hk, !new_run.
    eexists. split; [reflexivity|]. split; [reflexivity|]. simpl. eauto.
  - intros dtype type E H. unfold angle_supported in H. rewrite E in H.
    rewrite (angleFactory_supported _ _ _ _ E H).
    eexists. split; [reflexivity|]. split; [reflexivity|]. simpl. eauto.
Qed.

Lemma factories_dispatch_witness :
  makeConstArithmetic Examples.SampleObject Examples.sample_convert
    Examples.sample_toString (mkDType custom 1) "X+K" (Examples.NumberObject 10)
  = Throws (InvalidArgumentException
      ("makeConstArithmetic(" +:+ Examples.sample_toString (mkDType custom 1)
         +:+ ", operation=" +:+ "X+K" +:+ ")")
      "unsupported args") /\
  angleFactory Examples.sample_toString Examples.sample_getAngle_at
    (mkDType (numeric (complex uint8_t)) 1)
  = Throws (InvalidArgumentException
      ("angleFactory(" +:+ Examples.sample_toString (mkDType (numeric (complex uint8_t)) 1)
         +:+ ")")
      "unsupported type") /\
  (exists b,
      makeConstArithmetic Examples.SampleObject Examples.sample_convert
        Examples.sample_toString (mkDType (numeric (scalar int32_t)) 4) "K-X"
        (Examples.NumberObject 10)
      = Returns (existT (scalar int32_t) b) /\
      ConstArithmetic.new (scalar int32_t) (kernel_for "K-X") 10%Z 4 = Returns b /\
      is_Some (ConstArithmetic._func b) /\
      ConstArithmetic._func b = kernel_for "K-X") /\
  (exists b,
      angleFactory Examples.sample_toString Examples.sample_getAngle_at
        (mkDType (numeric (complex int16_t)) 2)
      = Returns (existT int16_t b) /\
      Angle.new (complex int16_t) (scalar int16_t)
        (Examples.sample_getAngle_at int16_t) 2 = Returns b /\
      is_Some (Angle._fcn b)).
Proof.
  destruct (factories_dispatch Examples.SampleObject Examples.sample_convert
              Examples.sample_toString Examples.sample_getAngle_at)
    as (Hbad & Hbad_angle & Hgood & Hgood_angle).
  split; [|split; [|split]].
  - apply Hbad. reflexivity.
  - apply Hbad_angle. reflexivity.
  - apply (Hgood (mkDType (numeric (scalar int32_t)) 4) (scalar int32_t) "K-X"
                 (Examples.NumberObject 10) 10%Z); reflexivity.
  - apply (Hgood_angle (mkDType (numeric (complex int16_t)) 2) int16_t); reflexivity.
Defined.

(** C6 as stated fails: [int8_t] with "K/X" is advertised, yet construction
    fails when the constant is not a number. *)
Lemma advertised_pair_fails_on_bad_constant :
  constArithmetic_supported (mkDType (numeric (scalar int8_t)) 1) "K/X" = true /\
  makeConstArithmetic Examples.SampleObject Examples.sample_convert
    Examples.sample_toString (mkDType (numeric (scalar int8_t)) 1) "K/X"
    (Examples.VectorObject [1; 2]%Z)
  = Throws (ObjectConvertError "Pothos::Object::convert()" "not a number").
Proof. split; reflexivity. Qed.

(** C7: for a const-arithmetic request the factory accepts, the constant is
    converted to the element type first: if the conversion throws, the
    factory throws the same exception and no block is built; otherwise the
    block is constructed from the converted value. *)
Theorem constant_converted_before_construction
    (Object : Type) (convert : forall type : CType, Object -> Exception + ctype type)
    (toString : DType -> string)
    (dtype : DType) (type : CType) (operation : string) (constant : Object) :
  elemType dtype = numeric type ->
  constArithmetic_supported dtype operation = true ->
  match convert type constant with
  | inl e =>
      makeConstArithmetic Object convert toString dtype operation constant = Throws e
  | inr k =>
      exists b,
        makeConstArithmetic Object convert toString dtype operation constant
        = Returns (existT type b) /\
        ConstArithmetic.new type (kernel_for operation) k (dimension dtype) = Returns b /\
        ConstArithmetic._constant b = k /\
        emitted (log (ConstArithmetic.block b)) = [("constantChanged", k)]
  end.
Proof.
  intros E H. unfold constArithmetic_supported in H. rewrite E in H.
  rewrite (kernel_for_operation (T := ctype type)) in H.
  apply bool_decide_eq_true in H. destruct H as [f Hf].
  rewrite (makeConstArithmetic_numeric _ _ _ _ _ _ type E), Hf.
  destruct (convert type constant) as [e|k]; [reflexivity|].
  rewrite !new_run. eexists. repeat split.
Qed.

Lemma constant_converted_before_construction_witness :
  makeConstArithmetic Examples.SampleObject Examples.sample_convert
    Examples.sample_toString (mkDType (numeric (scalar int8_t)) 1) "X+K"
    (Examples.NumberObject 300)
  = Throws (ObjectConvertError "Pothos::Object::convert()" "out of range") /\
  exists b,
    makeConstArithmetic Examples.SampleObject Examples.sample_convert
      Examples.sample_toString (mkDType (numeric (scalar int8_t)) 1) "X+K"
      (Examples.NumberObject 100)
    = Returns (existT (scalar int8_t) b) /\
    ConstArithmetic.new (scalar int8_t) (kernel_for "X+K") 100%Z 1 = Returns b /\
    ConstArithmetic._constant b = 100%Z /\
    emitted (log (ConstArithmetic.block b)) = [("constantChanged", 100%Z)].
Proof.
  split.
  - apply (constant_converted_before_construction Examples.SampleObject
             Examples.sample_convert Examples.sample_toString
             (mkDType (numeric (scalar int8_t)) 1) (scalar int8_t) "X+K"
             (Examples.NumberObject 300)); reflexivity.
  - apply (constant_converted_before_construction Examples.SampleObject
             Examples.sample_convert Examples.sample_toString
             (mkDType (numeric (scalar int8_t)) 1) (scalar int8_t) "X+K"
             (Examples.NumberObject 100)); reflexivity.
Defined.

(** * Further properties *)

(** ** Kernels *)

Section MoreLoopFacts.
Context {InType OutType : Type}.
Implicit Types (body : InType -> option OutType).
Implicit Types (inp : list InType) (out : list OutType).

(** A loop with a result stayed inside both buffers. *)
Lemma for_lanes_bounds body inp count i out out' :
  for_lanes body inp count i out = Some out' ->
  count = 0%nat \/ ((i + count <= length inp)%nat /\ (i + count <= length out)%nat).
Proof.
  revert i out. induction count as [|count IH]; simpl; intros i out Hrun; [now left|].
  right.
  destruct (inp !! i) as [x|] eqn:Hx; simpl in Hrun; [|discriminate].
  destruct (body x) as [y|]; simpl in Hrun; [|discriminate].
  destruct (Nat.ltb_spec i (length out)); [|discriminate].
  apply lookup_lt_Some in Hx.
  destruct (IH _ _ Hrun) as [->|[Hin Hout]]; [lia|].
  rewrite length_insert in Hout. lia.
Qed.

(** With a total body the result is the mapped prefix followed by the rest
    of the output buffer. *)
Lemma for_lanes_map (f : InType -> OutType) inp out (num : nat) :
  (num <= length inp)%nat -> (num <= length out)%nat ->
  for_lanes (fun x => Some (f x)) inp num 0 out
  = Some ((f <$> take num inp) ++ drop num out).
Proof.
  intros Hin Hout.
  destruct (for_lanes_total f inp out num Hin Hout) as (out' & Hrun & Hlen & Hlanes & Hrest).
  rewrite Hrun. f_equal. apply list_eq. intros i.
  assert (Hpre : length (f <$> take num inp) = num)
    by (rewrite length_fmap, length_take; lia).
  destruct (Nat.lt_ge_cases i num) as [Hi|Hi].
  - destruct (lookup_lt_is_Some_2 inp i) as [x Hx]; [lia|].
    rewrite (Hlanes i x Hi Hx), lookup_app_l by lia.
    now rewrite list_lookup_fmap, lookup_take_lt, Hx by lia.
  - rewrite (Hrest i Hi), lookup_app_r by lia.
    rewrite Hpre, lookup_drop. f_equal. lia.
Qed.

End MoreLoopFacts.

(** X1: for every element type the "X-K" kernel leaves [in[i] - k] and the
    "X*K" kernel leaves [in[i] * k] in the first [num] lanes of the output
    buffer, and the lanes after them as they were. *)
Theorem XSubK_XMultK_lanes (T : Type) (A : Arith T) (inp out : list T) (k : T) (num : N) :
  (N.to_nat num <= length inp)%nat -> (N.to_nat num <= length out)%nat ->
  (exists f,
      getXSubKFcn = Some f /\
      f inp k out num
      = Some (((fun x => minus x k) <$> take (N.to_nat num) inp) ++ drop (N.to_nat num) out)) /\
  (exists f,
      getXMultKFcn = Some f /\
      f inp k out num
      = Some (((fun x => times x k) <$> take (N.to_nat num) inp) ++ drop (N.to_nat num) out)).
Proof.
  intros Hin Hout. split.
  - exists XSubK. split; [reflexivity|]. now apply for_lanes_map.
  - exists XMultK. split; [reflexivity|]. now apply for_lanes_map.
Qed.

Lemma XSubK_XMultK_lanes_witness :
  (exists f,
      @getXSubKFcn (ctype (scalar uint8_t)) _ = Some f /\
      f [3; 200]%Z 5%Z [0; 0; 9]%Z 2%N
      = Some (((fun x => int_sub false 8 x 5) <$> take 2 [3; 200]%Z) ++ drop 2 [0; 0; 9]%Z)) /\
  (exists f,
      @getXMultKFcn (ctype (scalar uint8_t)) _ = Some f /\
      f [3; 200]%Z 5%Z [0; 0; 9]%Z 2%N
      = Some (((fun x => int_mul false 8 x 5) <$> take 2 [3; 200]%Z) ++ drop 2 [0; 0; 9]%Z)).
Proof.
  refine (XSubK_XMultK_lanes (ctype (scalar uint8_t)) _ [3; 200]%Z [0; 0; 9]%Z 5%Z 2%N _ _);
    simpl; lia.
Defined.

(** X2: a kernel has a result only if both buffers hold the [num] lanes it
    is asked to process, and for the four kernels without a division and
    for the angle kernel that is also enough. *)
Theorem kernels_stay_in_bounds (T : Type) (A : Arith T) (inp out : list T) (k : T) (num : N) :
  let fits := ((N.to_nat num <= length inp)%nat /\ (N.to_nat num <= length out)%nat) in
  (is_Some (XPlusK inp k out num) <-> fits) /\
  (is_Some (XSubK inp k out num) <-> fits) /\
  (is_Some (KSubX inp k out num) <-> fits) /\
  (is_Some (XMultK inp k out num) <-> fits) /\
  (is_Some (XDivK inp k out num) -> fits) /\
  (is_Some (KDivX inp k out num) -> fits) /\
  (forall (OutType : Type) (getAngle : T -> OutType) (angles : list OutType),
      is_Some (AngleLoop getAngle inp angles num)
      <-> (N.to_nat num <= length inp)%nat /\ (N.to_nat num <= length angles)%nat).
Proof.
  intros fits.
  assert (Hnec : forall (O : Type) (body : T -> option O) (o : list O),
             is_Some (for_lanes body inp (N.to_nat num) 0 o) ->
             (N.to_nat num <= length inp)%nat /\ (N.to_nat num <= length o)%nat).
  { intros O body o [o' Hrun].
    destruct (for_lanes_bounds _ _ _ _ _ _ Hrun) as [E|[? ?]]; [rewrite E|]; lia. }
  assert (Hsuf : forall (O : Type) (f : T -> O) (o : list O),
             (N.to_nat num <= length inp)%nat /\ (N.to_nat num <= length o)%nat ->
             is_Some (for_lanes (fun x => Some (f x)) inp (N.to_nat num) 0 o)).
  { intros O f o [? ?]. rewrite for_lanes_map by assumption. eauto. }
  unfold fits, XPlusK, XSubK, KSubX, XMultK, XDivK, KDivX, AngleLoop.
  do 4 (split; [split; [apply Hnec | apply Hsuf]|]).
  do 2 (split; [apply Hnec|]).
  intros OutType getAngle angles. split; [apply Hnec | apply Hsuf].
Qed.

Lemma kernels_stay_in_bounds_witness :
  is_Some (@XMultK (ctype (scalar int16_t)) _ [3; 4]%Z 2%Z [0; 0; 0]%Z 2%N) /\
  ((1 <= length [6%Z])%nat /\ (1 <= length [0%Z])%nat).
Proof.
  destruct (kernels_stay_in_bounds (ctype (scalar int16_t)) _ [3; 4]%Z [0; 0; 0]%Z 2%Z 2%N)
    as (_ & _ & _ & [_ Hmul] & _).
  destruct (kernels_stay_in_bounds (ctype (scalar int16_t)) _ [6%Z] [0%Z] 3%Z 1%N)
    as (_ & _ & _ & _ & Hdiv & _).
  split.
  - apply Hmul. simpl. lia.
  - apply Hdiv. exists [2%Z]. reflexivity.
Defined.

(** X3: the angle kernel leaves [getAngle(in[i])] in every lane [i < num] of
    the output buffer and the other lanes as they were, whatever [getAngle]
    computes. *)
Theorem angle_kernel_lanes (InType OutType : Type) (getAngle : InType -> OutType)
    (inp : list InType) (out : list OutType) (num : N) :
  (N.to_nat num <= length inp)%nat -> (N.to_nat num <= length out)%nat ->
  exists f,
    getAngleFcn getAngle = Some f /\
    f inp out num
    = Some ((getAngle <$> take (N.to_nat num) inp) ++ drop (N.to_nat num) out).
Proof.
  intros Hin Hout. exists (AngleLoop getAngle). split; [reflexivity|].
  now apply for_lanes_map.
Qed.

Lemma angle_kernel_lanes_witness :
  exists f,
    getAngleFcn Examples.sample_getAngle = Some f /\
    f [mkComplex 1 0; mkComplex 0 1; mkComplex 5 5]%Z [7; 7; 7]%Z 2%N
    = Some ((Examples.sample_getAngle
               <$> take 2 [mkComplex 1 0; mkComplex 0 1; mkComplex 5 5]%Z)
            ++ drop 2 [7; 7; 7]%Z).
Proof.
  refine (angle_kernel_lanes _ _ Examples.sample_getAngle
            [mkComplex 1 0; mkComplex 0 1; mkComplex 5 5]%Z [7; 7; 7]%Z 2%N _ _);
    simpl; lia.
Defined.

(** ** Integer kernels in sequence *)

Lemma int_wrap_in_range (s : ScalarType) (z : Z) :
  is_integral s = true -> in_range s z -> int_wrap (is_signed s) (bits s) z = z.
Proof.
  unfold in_range, int_wrap.
  destruct s; simpl; intros Hs Hz; try discriminate;
    rewrite Z.mod_small by lia; lia.
Qed.

Lemma int_wrap_minus_l (sg : bool) (w a b : Z) :
  int_wrap sg w (int_wrap sg w a - b) = int_wrap sg w (a - b).
Proof.
  unfold int_wrap. destruct sg.
  - f_equal.
    replace ((a + 2 ^ (w - 1)) mod 2 ^ w - 2 ^ (w - 1) - b + 2 ^ (w - 1))%Z
      with ((a + 2 ^ (w - 1)) mod 2 ^ w - b)%Z by lia.
    rewrite Zminus_mod_idemp_l. f_equal. lia.
  - apply Zminus_mod_idemp_l.
Qed.

Lemma int_wrap_minus_r (sg : bool) (w a b : Z) :
  int_wrap sg w (b - int_wrap sg w a) = int_wrap sg w (b - a).
Proof.
  unfold int_wrap. destruct sg.
  - f_equal.
    replace (b - ((a + 2 ^ (w - 1)) mod 2 ^ w - 2 ^ (w - 1)) + 2 ^ (w - 1))%Z
      with (b + 2 ^ (w - 1) + 2 ^ (w - 1) - (a + 2 ^ (w - 1)) mod 2 ^ w)%Z by lia.
    rewrite Zminus_mod_idemp_r. f_equal. lia.
  - apply Zminus_mod_idemp_r.
Qed.

Section PrefixFacts.
Context {A : Type}.

(** A function that fixes the first [n] elements fixes the prefix. *)
Lemma fmap_take_id (f : A -> A) (l : list A) (n : nat) :
  (forall i x, (i < n)%nat -> l !! i = Some x -> f x = x) ->
  f <$> take n l = take n l.
Proof.
  intros Hf. apply list_eq. intros i. rewrite list_lookup_fmap.
  destruct (Nat.lt_ge_cases i n) as [Hi|Hi].
  - rewrite lookup_take_lt by lia.
    destruct (l !! i) as [x|] eqn:Hx; simpl; [|reflexivity].
    now rewrite (Hf i x Hi Hx).
  - now rewrite lookup_take_ge by lia.
Qed.

(** The loop only looks at its body on the lanes it visits. *)
Lemma for_lanes_ext {B : Type} (body body' : A -> option B) (inp : list A)
    (count i : nat) (out : list B) :
  (forall j x, (i <= j < i + count)%nat -> inp !! j = Some x -> body x = body' x) ->
  for_lanes body inp count i out = for_lanes body' inp count i out.
Proof.
  revert i out. induction count as [|count IH]; simpl; intros i out Hext; [reflexivity|].
  destruct (inp !! i) as [x|] eqn:Hx; simpl; [|reflexivity].
  rewrite (Hext i x) by (lia || assumption).
  destruct (body' x) as [y|]; simpl; [|reflexivity].
  destruct (i <? length out)%nat; [|reflexivity].
  apply IH. intros j x' Hj. apply Hext. lia.
Qed.

End PrefixFacts.

(** The output of a first kernel, fed to a second one. *)
Lemma take_of_result {A : Type} (pre rest : list A) (n : nat) :
  length pre = n -> take n (pre ++ rest) = pre.
Proof. intros <-. apply take_app_length. Qed.

(** X4: on an integer type, feeding the output of "X+K" to "X-K" with the
    same constant gives back the first [num] lanes of the input, wherever
    the language defines the sums. *)
Theorem XPlusK_then_XSubK (s : ScalarType) (inp mid out : list Z) (k : Z) (num : N) :
  is_integral s = true ->
  (N.to_nat num <= length inp)%nat -> (N.to_nat num <= length mid)%nat ->
  (N.to_nat num <= length out)%nat ->
  (forall i x, (i < N.to_nat num)%nat -> inp !! i = Some x ->
               in_range s x /\ result_defined s (x + k)) ->
  let A := int_arith (is_signed s) (bits s) in
  exists mid',
    @XPlusK Z A inp k mid num = Some mid' /\
    @XSubK Z A mid' k out num
    = Some (take (N.to_nat num) inp ++ drop (N.to_nat num) out).
Proof.
  intros Hs Hin Hmid Hout Hlanes A.
  eexists. split; [now apply for_lanes_map|].
  unfold XSubK. rewrite for_lanes_map.
  - rewrite take_of_result by (rewrite length_fmap, length_take; lia).
    rewrite <- list_fmap_compose. f_equal. f_equal.
    apply fmap_take_id. intros i x Hi Hx. simpl.
    unfold int_sub, int_add. rewrite int_wrap_minus_l.
    replace (x + k - k)%Z with x by lia.
    apply int_wrap_in_range; [assumption|]. now apply (Hlanes i x).
  - rewrite length_app, length_fmap, length_take, length_drop. lia.
  - assumption.
Qed.

Lemma XPlusK_then_XSubK_witness :
  exists mid',
    @XPlusK Z (int_arith false 8) [250; 7]%Z 10%Z [0; 0]%Z 2%N = Some mid' /\
    @XSubK Z (int_arith false 8) mid' 10%Z [0; 0; 5]%Z 2%N
    = Some (take 2 [250; 7]%Z ++ drop 2 [0; 0; 5]%Z).
Proof.
  refine (XPlusK_then_XSubK uint8_t [250; 7]%Z [0; 0]%Z [0; 0; 5]%Z 10%Z 2%N
            eq_refl _ _ _ _); try (simpl; lia).
  intros i x Hi Hx. split.
  - destruct i as [|[|i]]; simpl in Hx; [| |simpl in Hi; lia];
      injection Hx as <-; unfold in_range; simpl; lia.
  - intros Hsigned. discriminate.
Defined.

(** X5: on an integer type "K-X" undoes itself: applied to its own output
    with the same constant it gives back the first [num] lanes of the
    input, wherever the language defines the differences. *)
Theorem KSubX_twice (s : ScalarType) (inp mid out : list Z) (k : Z) (num : N) :
  is_integral s = true ->
  (N.to_nat num <= length inp)%nat -> (N.to_nat num <= length mid)%nat ->
  (N.to_nat num <= length out)%nat ->
  (forall i x, (i < N.to_nat num)%nat -> inp !! i = Some x ->
               in_range s x /\ result_defined s (k - x)) ->
  let A := int_arith (is_signed s) (bits s) in
  exists mid',
    @KSubX Z A inp k mid num = Some mid' /\
    @KSubX Z A mid' k out num
    = Some (take (N.to_nat num) inp ++ drop (N.to_nat num) out).
Proof.
  intros Hs Hin Hmid Hout Hlanes A.
  eexists. split; [now apply for_lanes_map|].
  unfold KSubX. rewrite for_lanes_map.
  - rewrite take_of_result by (rewrite length_fmap, length_take; lia).
    rewrite <- list_fmap_compose. f_equal. f_equal.
    apply fmap_take_id. intros i x Hi Hx. simpl.
    unfold int_sub. rewrite int_wrap_minus_r.
    replace (k - (k - x))%Z with x by lia.
    apply int_wrap_in_range; [assumption|]. now apply (Hlanes i x).
  - rewrite length_app, length_fmap, length_take, length_drop. lia.
  - assumption.
Qed.

Lemma KSubX_twice_witness :
  exists mid',
    @KSubX Z (int_arith true 32) [1; 2; 3]%Z 10%Z [0; 0; 0]%Z 3%N = Some mid' /\
    @KSubX Z (int_arith true 32) mid' 10%Z [0; 0; 0]%Z 3%N
    = Some (take 3 [1; 2; 3]%Z ++ drop 3 [0; 0; 0]%Z).
Proof.
  refine (KSubX_twice int32_t [1; 2; 3]%Z [0; 0; 0]%Z [0; 0; 0]%Z 10%Z 3%N
            eq_refl _ _ _ _); try (simpl; lia).
  intros i x Hi Hx.
  destruct i as [|[|[|i]]]; simpl in Hx; [| | |simpl in Hi; lia];
    injection Hx as <-; split; try intros _ _; unfold in_range; simpl; lia.
Defined.

(** X6: on an integer type the constants 0 for "X+K" and "X-K" and 1 for
    "X*K" and "X/K" make the kernel a copy: the first [num] lanes of the
    output buffer become those of the input. *)
Theorem integer_neutral_constants (s : ScalarType) (inp out : list Z) (num : N) :
  is_integral s = true ->
  (N.to_nat num <= length inp)%nat -> (N.to_nat num <= length out)%nat ->
  (forall i x, (i < N.to_nat num)%nat -> inp !! i = Some x -> in_range s x) ->
  let A := int_arith (is_signed s) (bits s) in
  let copied := Some (take (N.to_nat num) inp ++ drop (N.to_nat num) out) in
  @XPlusK Z A inp 0%Z out num = copied /\
  @XSubK Z A inp 0%Z out num = copied /\
  @XMultK Z A inp 1%Z out num = copied /\
  @XDivK Z A inp 1%Z out num = copied.
Proof.
  intros Hs Hin Hout Hlanes A copied.
  assert (Hcopy : forall f : Z -> Z,
             (forall x, in_range s x -> f x = x) ->
             for_lanes (fun x => Some (f x)) inp (N.to_nat num) 0 out = copied).
  { intros f Hf. rewrite for_lanes_map by assumption. unfold copied.
    f_equal. f_equal. apply fmap_take_id. intros i x Hi Hx. eauto. }
  repeat split.
  - apply Hcopy. intros x Hx. simpl. unfold int_add.
    rewrite Z.add_0_r. now apply int_wrap_in_range.
  - apply Hcopy. intros x Hx. simpl. unfold int_sub.
    rewrite Z.sub_0_r. now apply int_wrap_in_range.
  - apply Hcopy. intros x Hx. simpl. unfold int_mul.
    rewrite Z.mul_1_r. now apply int_wrap_in_range.
  - unfold XDivK. rewrite <- (Hcopy (fun x => x)) by reflexivity.
    apply for_lanes_ext. intros j x Hj Hx. simpl.
    unfold int_div, quot_overflows. simpl.
    rewrite !andb_false_r, Z.quot_1_r.
    f_equal. apply int_wrap_in_range; [assumption|]. apply (Hlanes j x); [lia|assumption].
Qed.

Lemma integer_neutral_constants_witness :
  let copied := Some (take 2 [-128; 127; 5]%Z ++ drop 2 [0; 0; 9]%Z) in
  @XPlusK Z (int_arith true 8) [-128; 127; 5]%Z 0%Z [0; 0; 9]%Z 2%N = copied /\
  @XSubK Z (int_arith true 8) [-128; 127; 5]%Z 0%Z [0; 0; 9]%Z 2%N = copied /\
  @XMultK Z (int_arith true 8) [-128; 127; 5]%Z 1%Z [0; 0; 9]%Z 2%N = copied /\
  @XDivK Z (int_arith true 8) [-128; 127; 5]%Z 1%Z [0; 0; 9]%Z 2%N = copied.
Proof.
  refine (integer_neutral_constants int8_t [-128; 127; 5]%Z [0; 0; 9]%Z 2%N
            eq_refl _ _ _); try (simpl; lia).
  intros i x Hi Hx.
  destruct i as [|[|i]]; simpl in Hx; [| |simpl in Hi; lia];
    injection Hx as <-; unfold in_range; simpl; lia.
Defined.

(** ** Floating-point kernels *)

(** X7: on [float] and [double], whose operators are IEEE 754, "X-K" with
    the constant +0.0 copies every value unchanged; "X+K" with +0.0 copies
    every value except -0.0, which it turns into +0.0. *)
Theorem float_zero_constant (prec emax : Z) (inp out : list spec_float) (num : N) :
  (N.to_nat num <= length inp)%nat -> (N.to_nat num <= length out)%nat ->
  let A := float_arith prec emax in
  (scalar_arith float = float_arith 24 128 /\ scalar_arith double = float_arith 53 1024) /\
  @XSubK spec_float A inp (S754_zero false) out num
  = Some (take (N.to_nat num) inp ++ drop (N.to_nat num) out) /\
  @XPlusK spec_float A inp (S754_zero false) out num
  = Some (((fun x => match x with S754_zero _ => S754_zero false | _ => x end)
             <$> take (N.to_nat num) inp)
          ++ drop (N.to_nat num) out).
Proof.
  intros Hin Hout A. split; [split; reflexivity|]. split.
  - unfold XSubK. rewrite for_lanes_map by assumption.
    f_equal. f_equal. apply fmap_take_id.
    intros i x _ _. simpl. now destruct x as [[]|[]| |].
  - unfold XPlusK. rewrite for_lanes_map by assumption.
    f_equal. f_equal. apply list_fmap_ext.
    intros i x _. simpl. now destruct x as [[]|[]| |].
Qed.

Lemma float_zero_constant_witness :
  @XSubK spec_float (float_arith 24 128) [S754_zero true; f32 3 0] (S754_zero false)
         [f32 0 0; f32 0 0] 2%N
  = Some (take 2 [S754_zero true; f32 3 0] ++ drop 2 [f32 0 0; f32 0 0]) /\
  @XPlusK spec_float (float_arith 24 128) [S754_zero true; f32 3 0] (S754_zero false)
          [f32 0 0; f32 0 0] 2%N
  = Some (((fun x => match x with S754_zero _ => S754_zero false | _ => x end)
             <$> take 2 [S754_zero true; f32 3 0])
          ++ drop 2 [f32 0 0; f32 0 0]).
Proof.
  refine (proj2 (float_zero_constant 24 128 [S754_zero true; f32 3 0]
                   [f32 0 0; f32 0 0] 2%N _ _)); simpl; lia.
Defined.

(** X8: the floating-point division kernels have no undefined lane: "X/K"
    and "K/X" complete on any input and any constant, and dividing by a
    zero constant leaves an infinity for every finite nonzero or infinite
    lane and NaN for every zero or NaN lane. *)
Theorem float_division_by_zero (prec emax : Z) (inp out : list spec_float)
    (k : spec_float) (num : N) :
  (N.to_nat num <= length inp)%nat -> (N.to_nat num <= length out)%nat ->
  let A := float_arith prec emax in
  @XDivK spec_float A inp k out num
  = Some (((fun x => SFdiv prec emax x k) <$> take (N.to_nat num) inp)
          ++ drop (N.to_nat num) out) /\
  @KDivX spec_float A inp k out num
  = Some (((fun x => SFdiv prec emax k x) <$> take (N.to_nat num) inp)
          ++ drop (N.to_nat num) out) /\
  forall (sk : bool) (x : spec_float),
    SFdiv prec emax x (S754_zero sk)
    = match x with
      | S754_finite sx _ _ | S754_infinity sx => S754_infinity (xorb sx sk)
      | S754_zero _ | S754_nan => S754_nan
      end.
Proof.
  intros Hin Hout A. split; [|split].
  - unfold XDivK. simpl. now apply for_lanes_map.
  - unfold KDivX. simpl. now apply for_lanes_map.
  - intros sk x. now destruct x.
Qed.

Lemma float_division_by_zero_witness :
  @XDivK spec_float (float_arith 24 128) [f32 1 0; S754_zero false; SFopp (f32 2 0)]
         (S754_zero false) [f32 0 0; f32 0 0; f32 0 0] 3%N
  = Some [S754_infinity false; S754_nan; S754_infinity true].
Proof.
  destruct (float_division_by_zero 24 128 [f32 1 0; S754_zero false; SFopp (f32 2 0)]
              [f32 0 0; f32 0 0; f32 0 0] (S754_zero false) 3%N) as (Hdiv & _ & _);
    [simpl; lia..|].
  exact Hdiv.
Defined.

(** ** Every way [work()] can end *)

(** The state a [ConstArithmetic] block is left in by a step over [n]
    elements that wrote [out']. *)
Lemma ConstArithmetic_work_outcome (t : CType) (s : ConstArithmetic.Self t) :
  let n := minElements (workInfo (ConstArithmetic.block s)) in
  ConstArithmetic.work s
  = if (0 =? n)%N then Returns (tt, s)
    else
      match inputs (ConstArithmetic.block s) !! 0%N,
            outputs (ConstArithmetic.block s) !! 0%N with
      | Some pin, Some pout =>
          match ConstArithmetic._func s with
          | Some f =>
              match f (buffer pin) (ConstArithmetic._constant s) (buffer pout)
                      (size_t_mul n (dimension (dtype pin))) with
              | Some out' =>
                  Returns (tt,
                    ConstArithmetic.mkSelf
                      (mkBlock (workInfo (ConstArithmetic.block s))
                         (<[0%N := mkPort (dtype pin) (buffer pin)
                                     (pendingElements pin + n)%N]>
                            (inputs (ConstArithmetic.block s)))
                         (<[0%N := mkPort (dtype pout) out'
                                     (pendingElements pout + n)%N]>
                            (outputs (ConstArithmetic.block s)))
                         (log (ConstArithmetic.block s) ++
                            [InputBuffer 0; OutputBuffer 0;
                             KernelCall (Some (ConstArithmetic._constant s))
                               (size_t_mul n (dimension (dtype pin)));
                             Consume 0 n; Produce 0 n]))
                      (ConstArithmetic._constant s) (ConstArithmetic._position s)
                      (ConstArithmetic._func s))
              | None => Undefined
              end
          | None => Undefined
          end
      | _, _ => Throws (PortAccessError 0)
      end.
Proof.
  intros n. destruct (N.eqb_spec 0 n) as [Hn|Hn].
  - member_unfold. simpl. fold n. rewrite <- Hn. simpl.
    destruct s as [[? ? ? ?] ? ? ?]. reflexivity.
  - destruct (inputs (ConstArithmetic.block s) !! 0%N) as [pin|] eqn:Hin;
      [destruct (outputs (ConstArithmetic.block s) !! 0%N) as [pout|] eqn:Hout;
       [destruct (ConstArithmetic._func s) as [f|] eqn:Hf;
        [destruct (f (buffer pin) (ConstArithmetic._constant s) (buffer pout)
                     (size_t_mul n (dimension (dtype pin)))) as [out'|] eqn:Hk|]|]|].
    + rewrite <- Hf. apply ConstArithmetic_work_run with (f := f); try assumption.
      fold n. lia.
    + member_unfold. simpl. fold n. destruct n as [|p]; [lia|]. simpl.
      repeat (first [rewrite Hin | rewrite Hout | rewrite Hf | rewrite Hk]; simpl).
      reflexivity.
    + member_unfold. simpl. fold n. destruct n as [|p]; [lia|]. simpl.
      repeat (first [rewrite Hin | rewrite Hout | rewrite Hf]; simpl).
      reflexivity.
    + member_unfold. simpl. fold n. destruct n as [|p]; [lia|]. simpl.
      repeat (first [rewrite Hin | rewrite Hout]; simpl).
      reflexivity.
    + member_unfold. simpl. fold n. destruct n as [|p]; [lia|]. simpl.
      rewrite Hin. simpl. reflexivity.
Qed.

Lemma Angle_work_outcome (InT OutT : CType) (s : Angle.Self InT OutT) :
  let n := minElements (workInfo (Angle.block s)) in
  Angle.work s
  = if (n =? 0)%N then Returns (tt, s)
    else
      match inputs (Angle.block s) !! 0%N, outputs (Angle.block s) !! 0%N with
      | Some pin, Some pout =>
          match Angle._fcn s with
          | Some f =>
              match f (buffer pin) (buffer pout)
                      (size_t_mul n (dimension (dtype pin))) with
              | Some out' =>
                  Returns (tt,
                    Angle.mkSelf
                      (mkBlock (workInfo (Angle.block s))
                         (<[0%N := mkPort (dtype pin) (buffer pin)
                                     (pendingElements pin + n)%N]>
                            (inputs (Angle.block s)))
                         (<[0%N := mkPort (dtype pout) out'
                                     (pendingElements pout + n)%N]>
                            (outputs (Angle.block s)))
                         (log (Angle.block s) ++
                            [InputBuffer 0; OutputBuffer 0;
                             KernelCall None (size_t_mul n (dimension (dtype pin)));
                             Consume 0 n; Produce 0 n]))
                      (Angle._fcn s))
              | None => Undefined
              end
          | None => Undefined
          end
      | _, _ => Throws (PortAccessError 0)
      end.
Proof.
  intros n. destruct (N.eqb_spec n 0) as [Hn|Hn].
  - member_unfold. simpl. fold n. rewrite Hn. simpl.
    destruct s as [[? ? ? ?] ?]. reflexivity.
  - destruct (inputs (Angle.block s) !! 0%N) as [pin|] eqn:Hin;
      [destruct (outputs (Angle.block s) !! 0%N) as [pout|] eqn:Hout;
       [destruct (Angle._fcn s) as [f|] eqn:Hf;
        [destruct (f (buffer pin) (buffer pout)
                     (size_t_mul n (dimension (dtype pin)))) as [out'|] eqn:Hk|]|]|].
    + rewrite <- Hf. apply Angle_work_run with (f := f); try assumption.
      fold n. lia.
    + member_unfold. simpl. fold n. destruct n as [|p]; [lia|]. simpl.
      repeat (first [rewrite Hin | rewrite Hout | rewrite Hf | rewrite Hk]; simpl).
      reflexivity.
    + member_unfold. simpl. fold n. destruct n as [|p]; [lia|]. simpl.
      repeat (first [rewrite Hin | rewrite Hout | rewrite Hf]; simpl).
      reflexivity.
    + member_unfold. simpl. fold n. destruct n as [|p]; [lia|]. simpl.
      repeat (first [rewrite Hin | rewrite Hout]; simpl).
      reflexivity.
    + member_unfold. simpl. fold n. destruct n as [|p]; [lia|]. simpl.
      rewrite Hin. simpl. reflexivity.
Qed.

(** X9: a [ConstArithmetic::work()] that returns has added exactly
    [minElements] to the pending count of input port 0 and of output port 0,
    and has not touched the input buffer, the type of either port, any other
    port or the work info. *)
Theorem ConstArithmetic_work_ports (t : CType) (s s' : ConstArithmetic.Self t) :
  ConstArithmetic.work s = Returns (tt, s') ->
  let n := minElements (workInfo (ConstArithmetic.block s)) in
  workInfo (ConstArithmetic.block s') = workInfo (ConstArithmetic.block s) /\
  (forall i, i <> 0%N ->
     inputs (ConstArithmetic.block s') !! i = inputs (ConstArithmetic.block s) !! i /\
     outputs (ConstArithmetic.block s') !! i = outputs (ConstArithmetic.block s) !! i) /\
  (n = 0%N -> s' = s) /\
  ((0 < n)%N ->
   exists pin pout pout',
     inputs (ConstArithmetic.block s) !! 0%N = Some pin /\
     outputs (ConstArithmetic.block s) !! 0%N = Some pout /\
     inputs (ConstArithmetic.block s') !! 0%N
     = Some (mkPort (dtype pin) (buffer pin) (pendingElements pin + n)%N) /\
     outputs (ConstArithmetic.block s') !! 0%N = Some pout' /\
     dtype pout' = dtype pout /\
     pendingElements pout' = (pendingElements pout + n)%N).
Proof.
  intros H n. rewrite ConstArithmetic_work_outcome in H. fold n in H.
  destruct (N.eqb_spec 0 n) as [Hn|Hn].
  - injection H as <-. repeat split; try reflexivity. lia.
  - destruct (inputs (ConstArithmetic.block s) !! 0%N) as [pin|] eqn:Hin; [|discriminate].
    destruct (outputs (ConstArithmetic.block s) !! 0%N) as [pout|] eqn:Hout; [|discriminate].
    destruct (ConstArithmetic._func s) as [f|]; [|discriminate].
    destruct (f _ _ _ _) as [out'|]; [|discriminate].
    injection H as <-. simpl. repeat split.
    + now apply lookup_insert_ne.
    + now apply lookup_insert_ne.
    + intros E. congruence.
    + intros _. exists pin, pout. eexists. rewrite !lookup_insert_eq.
      repeat split.
Qed.

Lemma ConstArithmetic_work_ports_witness :
  let s' :=
    ConstArithmetic.mkSelf (t := scalar int32_t)
      (mkBlock (mkWorkInfo 3)
         {[ 0%N := mkPort (DType_typeid (scalar int32_t) 1) [1; 2; 3]%Z 3%N ]}
         {[ 0%N := mkPort (DType_typeid (scalar int32_t) 1) [9; 8; 7]%Z 3%N ]}
         [InputBuffer 0; OutputBuffer 0; KernelCall (Some 10%Z) 3;
          Consume 0 3; Produce 0 3])
      10%Z None getKSubXFcn in
  workInfo (ConstArithmetic.block s') = mkWorkInfo 3 /\
  forall i, i <> 0%N ->
    inputs (ConstArithmetic.block s') !! i
    = inputs (ConstArithmetic.block Examples.int32_KSubX) !! i /\
    outputs (ConstArithmetic.block s') !! i
    = outputs (ConstArithmetic.block Examples.int32_KSubX) !! i.
Proof.
  intros s'.
  assert (Hrun : ConstArithmetic.work Examples.int32_KSubX = Returns (tt, s'))
    by reflexivity.
  destruct (ConstArithmetic_work_ports (scalar int32_t) Examples.int32_KSubX s' Hrun)
    as (Hinfo & Hother & _).
  split; [exact Hinfo|exact Hother].
Defined.

(** X10: an [Angle::work()] that returns has kept the kernel pointer [_fcn],
    has added exactly [minElements] to the pending count of input port 0 and
    of output port 0, and has not touched the input buffer, the type of
    either port, any other port or the work info. *)
Theorem Angle_work_frame (InT OutT : CType) (s s' : Angle.Self InT OutT) :
  Angle.work s = Returns (tt, s') ->
  let n := minElements (workInfo (Angle.block s)) in
  Angle._fcn s' = Angle._fcn s /\
  workInfo (Angle.block s') = workInfo (Angle.block s) /\
  (forall i, i <> 0%N ->
     inputs (Angle.block s') !! i = inputs (Angle.block s) !! i /\
     outputs (Angle.block s') !! i = outputs (Angle.block s) !! i) /\
  (n = 0%N -> s' = s) /\
  ((0 < n)%N ->
   exists pin pout pout',
     inputs (Angle.block s) !! 0%N = Some pin /\
     outputs (Angle.block s) !! 0%N = Some pout /\
     inputs (Angle.block s') !! 0%N
     = Some (mkPort (dtype pin) (buffer pin) (pendingElements pin + n)%N) /\
     outputs (Angle.block s') !! 0%N = Some pout' /\
     dtype pout' = dtype pout /\
     pendingElements pout' = (pendingElements pout + n)%N).
Proof.
  intros H n. rewrite Angle_work_outcome in H. fold n in H.
  destruct (N.eqb_spec n 0) as [Hn|Hn].
  - injection H as <-. repeat split; try reflexivity. lia.
  - destruct (inputs (Angle.block s) !! 0%N) as [pin|] eqn:Hin; [|discriminate].
    destruct (outputs (Angle.block s) !! 0%N) as [pout|] eqn:Hout; [|discriminate].
    destruct (Angle._fcn s) as [f|] eqn:Hf; [|discriminate].
    destruct (f _ _ _) as [out'|]; [|discriminate].
    injection H as <-. simpl. repeat split.
    + now apply lookup_insert_ne.
    + now apply lookup_insert_ne.
    + intros E. congruence.
    + intros _. exists pin, pout. eexists. rewrite !lookup_insert_eq.
      repeat split.
Qed.

Lemma Angle_work_frame_witness :
  let s' :=
    Angle.mkSelf (InT := complex int16_t) (OutT := scalar int16_t)
      (mkBlock (mkWorkInfo 1)
         {[ 0%N := mkPort (DType_typeid (complex int16_t) 2)
                     [mkComplex 1 0; mkComplex 0 1]%Z 1%N ]}
         {[ 0%N := mkPort (DType_typeid (scalar int16_t) 2) [1; 0]%Z 1%N ]}
         [InputBuffer 0; OutputBuffer 0; KernelCall None 2; Consume 0 1; Produce 0 1])
      (getAngleFcn Examples.sample_getAngle) in
  Angle._fcn s' = Angle._fcn Examples.int16_Angle /\
  workInfo (Angle.block s') = mkWorkInfo 1.
Proof.
  intros s'.
  assert (Hrun : Angle.work Examples.int16_Angle = Returns (tt, s')) by reflexivity.
  destruct (Angle_work_frame (complex int16_t) (scalar int16_t) Examples.int16_Angle s' Hrun)
    as (Hfcn & Hinfo & _).
  split; [exact Hfcn|exact Hinfo].
Defined.

(** ** No exception after construction *)

Lemma perform_keeps_ports (t : CType) (c : Host.Call t) (s : ConstArithmetic.Self t) :
  has_ports s -> keeps_ports c ->
  (forall e, Host.perform c s <> Throws e) /\
  (forall s', Host.perform c s = Returns (tt, s') -> has_ports s').
Proof.
  intros [[pin Hin] [pout Hout]] Hc. destruct c as [|v| |info ins outs].
  - assert (E : Host.perform Host.CallConstant s = Returns (tt, s)) by reflexivity.
    rewrite E. split; [discriminate|]. intros s' H. injection H as <-.
    split; eauto.
  - unfold Host.perform. rewrite setConstant_run.
    split; [discriminate|]. intros s' H. injection H as <-.
    split; simpl; eauto.
  - unfold Host.perform. rewrite ConstArithmetic_work_outcome, Hin, Hout.
    destruct (0 =? _)%N.
    { split; [discriminate|]. intros s' H. injection H as <-. split; eauto. }
    destruct (ConstArithmetic._func s) as [f|]; [|split; discriminate].
    destruct (f _ _ _ _) as [out'|]; [|split; discriminate].
    split; [discriminate|]. intros s' H. injection H as <-.
    split; simpl; rewrite lookup_insert_eq; eauto.
  - assert (E : Host.perform (Host.Supply info ins outs) s
                = Returns (tt, ConstArithmetic.mkSelf
                                 (mkBlock info ins outs (log (ConstArithmetic.block s)))
                                 (ConstArithmetic._constant s) (ConstArithmetic._position s)
                                 (ConstArithmetic._func s))) by reflexivity.
    rewrite E. split; [discriminate|]. intros s' H. injection H as <-. exact Hc.
Qed.

Lemma perform_all_keeps_ports (t : CType) (calls : list (Host.Call t))
    (s : ConstArithmetic.Self t) :
  has_ports s -> Forall keeps_ports calls ->
  forall e, Host.perform_all calls s <> Throws e.
Proof.
  intros Hs Hcalls. revert s Hs.
  induction Hcalls as [|c rest Hc _ IH]; intros s Hs e; simpl; [discriminate|].
  destruct (perform_keeps_ports t c s Hs Hc) as [Hno Hnext].
  unfold mbind, M_bind, bind.
  destruct (Host.perform c s) as [[[] s1]|e1|] eqn:E; [|now destruct (Hno e1)|discriminate].
  apply IH. now apply Hnext.
Qed.

(** X11: the constructor sets up the two ports [work()] asks for, and no
    member function removes them: on a constructed [ConstArithmetic] block
    no sequence of [constant()], [setConstant()] and [work()] calls, with
    the host lending buffers on ports 0 in between, ends in an exception. *)
Theorem no_exception_after_construction (t : CType)
    (func : option (ConstArithmeticFcn (ctype t))) (constant : ctype t) (dim : N)
    (calls : list (Host.Call t)) :
  Forall keeps_ports calls ->
  exists b,
    ConstArithmetic.new t func constant dim = Returns b /\
    forall e, Host.perform_all calls b <> Throws e.
Proof.
  intros Hcalls. rewrite new_run. eexists. split; [reflexivity|].
  apply perform_all_keeps_ports; [|assumption].
  split; simpl; rewrite lookup_insert_eq; eauto.
Qed.

Lemma no_exception_after_construction_witness :
  exists b,
    ConstArithmetic.new (scalar int32_t) getXDivKFcn 0%Z 1 = Returns b /\
    forall e,
      Host.perform_all (t := scalar int32_t)
        [Host.CallWork;
         Host.Supply (mkWorkInfo 1)
           {[ 0%N := mkPort (DType_typeid (scalar int32_t) 1) [5%Z] 0%N ]}
           {[ 0%N := mkPort (DType_typeid (scalar int32_t) 1) [0%Z] 0%N ]};
         Host.CallWork; Host.CallSetConstant (t := scalar int32_t) 2%Z; Host.CallWork] b
      <> Throws e.
Proof.
  apply (no_exception_after_construction (scalar int32_t) getXDivKFcn 0%Z 1).
  repeat constructor; simpl; rewrite lookup_singleton_eq; eauto.
Defined.

(** ** From the factory to the output buffer *)





(** X13: end to end.  A block built by [angleFactory] for a supported type,
    lent [n > 0] elements, completes [work()]: it then has [n] elements
    pending on both ports, the first [n * D] lanes of the output buffer hold
    [getAngle] of the corresponding input lanes, and the rest of the output
    buffer is as the host lent it. *)
Theorem angle_end_to_end
    (toString : DType -> string)
    (getAngle : forall type : ScalarType, ctype (complex type) -> ctype (scalar type))
    (dtype : DType) (type : ScalarType) (n : N)
    (inp : list (ctype (complex type))) (out : list (ctype (scalar type))) :
  elemType dtype = numeric (complex type) ->
  angle_supported dtype = true ->
  (0 < n)%N -> (n * dimension dtype < 2 ^ 64)%N ->
  (N.to_nat (n * dimension dtype) <= length inp)%nat ->
  (N.to_nat (n * dimension dtype) <= length out)%nat ->
  let outType := mkDType (numeric (scalar type)) (dimension dtype) in
  let out' := (getAngle type <$> take (N.to_nat (n * dimension dtype)) inp)
              ++ drop (N.to_nat (n * dimension dtype)) out in
  exists b s',
    angleFactory toString getAngle dtype = Returns (existT type b) /\
    (Angle_supply (mkWorkInfo n) {[ 0%N := mkPort dtype inp 0%N ]}
                  {[ 0%N := mkPort outType out 0%N ]} ;; Angle.work) b
    = Returns (tt, s') /\
    inputs (Angle.block s') !! 0%N = Some (mkPort dtype inp n) /\
    outputs (Angle.block s') !! 0%N = Some (mkPort outType out' n).
Proof.
  intros E Hop Hn Hsmall Hin Hout outType out'.
  unfold angle_supported in Hop. rewrite E in Hop.
  rewrite (angleFactory_supported _ _ _ _ E Hop).
  eexists. exists
    (Angle.mkSelf
       (mkBlock (mkWorkInfo n)
          (<[0%N := mkPort dtype inp (0 + n)%N]> {[ 0%N := mkPort dtype inp 0%N ]})
          (<[0%N := mkPort outType out' (0 + n)%N]> {[ 0%N := mkPort outType out 0%N ]})
          ([SetupInput 0 (DType_typeid (complex type) (dimension dtype));
            SetupOutput 0 (DType_typeid (scalar type) (dimension dtype))] ++
           [InputBuffer 0; OutputBuffer 0;
            KernelCall None (size_t_mul n (dimension dtype));
            Consume 0 n; Produce 0 n]))
       (getAngleFcn (getAngle type))).
  split; [reflexivity|]. split; [|split].
  - set (b := Angle.mkSelf _ _).
    change ((Angle_supply (mkWorkInfo n) {[ 0%N := mkPort dtype inp 0%N ]}
               {[ 0%N := mkPort outType out 0%N ]} ;; Angle.work) b)
      with (Angle.work
              (Angle.mkSelf
                 (mkBlock (mkWorkInfo n) {[ 0%N := mkPort dtype inp 0%N ]}
                    {[ 0%N := mkPort outType out 0%N ]} (log (Angle.block b)))
                 (Angle._fcn b))).
    subst b.
    rewrite (Angle_work_run _ _ _ (AngleLoop (getAngle type)) (mkPort dtype inp 0%N)
               (mkPort outType out 0%N) out'); [reflexivity|..]; simpl.
    + exact Hn.
    + apply lookup_singleton_eq.
    + apply lookup_singleton_eq.
    + reflexivity.
    + rewrite size_t_mul_small by exact Hsmall. now apply for_lanes_map.
  - simpl. rewrite lookup_insert_eq. f_equal.
  - simpl. rewrite lookup_insert_eq. f_equal.
Qed.

Lemma angle_end_to_end_witness :
  let dtype := mkDType (numeric (complex int16_t)) 2 in
  let outType := mkDType (numeric (scalar int16_t)) 2 in
  let inp := [mkComplex 1 0; mkComplex 0 1; mkComplex 4 4]%Z in
  let out' := (Examples.sample_getAngle_at int16_t <$> take (N.to_nat (1 * 2)) inp)
              ++ drop (N.to_nat (1 * 2)) [7; 7; 7]%Z in
  exists b s',
    angleFactory Examples.sample_toString Examples.sample_getAngle_at dtype
    = Returns (existT int16_t b) /\
    (Angle_supply (mkWorkInfo 1) {[ 0%N := mkPort dtype inp 0%N ]}
                  {[ 0%N := mkPort outType [7; 7; 7]%Z 0%N ]} ;; Angle.work) b
    = Returns (tt, s') /\
    inputs (Angle.block s') !! 0%N = Some (mkPort dtype inp 1) /\
    outputs (Angle.block s') !! 0%N = Some (mkPort outType out' 1).
Proof.
  refine (angle_end_to_end Examples.sample_toString Examples.sample_getAngle_at
            (mkDType (numeric (complex int16_t)) 2) int16_t 1
            [mkComplex 1 0; mkComplex 0 1; mkComplex 4 4]%Z [7; 7; 7]%Z _ _ _ _ _ _);
    try reflexivity; simpl; lia.
Defined.

(** ** What a factory result tells *)

Lemma DType_eta (dtype : DType) : mkDType (elemType dtype) (dimension dtype) = dtype.
Proof. now destruct dtype. Qed.

(** X14: [makeConstArithmetic] never has undefined behaviour.  When it
    throws, either the request is unsupported and the exception is the
    "unsupported args" one, or the request is supported and the exception
    is the one the conversion of the constant threw.  When it returns a
    block, the request was supported, the block is the one for the
    requested element type, it stores the converted constant and the kernel
    of the operation, and both its ports carry exactly the requested type,
    dimension included, with nothing pending. *)
Theorem makeConstArithmetic_inversion
    (Object : Type) (convert : forall type : CType, Object -> Exception + ctype type)
    (toString : DType -> string)
    (dtype : DType) (operation : string) (constant : Object) :
  let result := makeConstArithmetic Object convert toString dtype operation constant in
  result <> Undefined /\
  (forall e, result = Throws e ->
     (constArithmetic_supported dtype operation = false /\
      e = InvalidArgumentException
            ("makeConstArithmetic(" +:+ toString dtype +:+ ", operation=" +:+ operation +:+ ")")
            "unsupported args") \/
     (constArithmetic_supported dtype operation = true /\
      exists type, elemType dtype = numeric type /\ convert type constant = inl e)) /\
  (forall r, result = Returns r ->
     let b := projT2 r in
     elemType dtype = numeric (projT1 r) /\
     constArithmetic_supported dtype operation = true /\
     convert (projT1 r) constant = inr (ConstArithmetic._constant b) /\
     ConstArithmetic._func b = kernel_for operation /\
     inputs (ConstArithmetic.block b) !! 0%N = Some (mkPort dtype [] 0%N) /\
     outputs (ConstArithmetic.block b) !! 0%N = Some (mkPort dtype [] 0%N)).
Proof.
  intros result. subst result. unfold constArithmetic_supported.
  destruct (elemType dtype) as [type|] eqn:E.
  - rewrite (makeConstArithmetic_numeric _ _ _ _ _ _ type E).
    rewrite (kernel_for_operation (T := ctype type)).
    destruct (kernel_for operation) as [f|] eqn:Hf.
    + rewrite (bool_decide_eq_true_2 _ (ltac:(eauto) : is_Some (Some f))).
      destruct (convert type constant) as [e0|k] eqn:Hk.
      * split; [discriminate|]. split; [|discriminate].
        intros e H. injection H as <-. right. split; [reflexivity|]. eauto.
      * rewrite new_run. split; [discriminate|]. split; [discriminate|].
        intros r H. injection H as <-. simpl.
        rewrite !lookup_insert_eq. unfold DType_typeid.
        rewrite <- E, DType_eta. rewrite E.
        repeat split; [exact Hk|now symmetry].
    + rewrite (bool_decide_eq_false_2 (is_Some None))
        by (intros [? ?]; discriminate).
      split; [discriminate|]. split; [|discriminate].
      intros e H. injection H as <-. left. split; reflexivity.
  - rewrite (makeConstArithmetic_custom _ _ _ _ _ _ E).
    split; [discriminate|]. split; [|discriminate].
    intros e H. injection H as <-. left. split; reflexivity.
Qed.

Lemma makeConstArithmetic_inversion_witness :
  let dtype := mkDType (numeric (scalar int8_t)) 4 in
  let b :=
    ConstArithmetic.mkSelf (t := scalar int8_t)
      (mkBlock (mkWorkInfo 0)
         (<[0%N := mkPort (DType_typeid (scalar int8_t) 4) [] 0%N]> ∅)
         (<[0%N := mkPort (DType_typeid (scalar int8_t) 4) [] 0%N]> ∅)
         [SetupInput 0 (DType_typeid (scalar int8_t) 4);
          SetupOutput 0 (DType_typeid (scalar int8_t) 4);
          RegisterCall "constant"; RegisterCall "setConstant";
          RegisterProbe "constant"; RegisterSignal "constantChanged";
          EmitSignal "constantChanged" 100%Z])
      100%Z None getXMultKFcn in
  (elemType dtype = numeric (scalar int8_t) /\
   constArithmetic_supported dtype "X*K" = true /\
   Examples.sample_convert (scalar int8_t) (Examples.NumberObject 100)
   = inr (ConstArithmetic._constant b) /\
   ConstArithmetic._func b = kernel_for "X*K" /\
   inputs (ConstArithmetic.block b) !! 0%N = Some (mkPort dtype [] 0%N) /\
   outputs (ConstArithmetic.block b) !! 0%N = Some (mkPort dtype [] 0%N)) /\
  (constArithmetic_supported dtype "X*K" = true /\
   exists type,
     elemType dtype = numeric type /\
     Examples.sample_convert type (Examples.VectorObject []) =
     inl (ObjectConvertError "Pothos::Object::convert()" "not a number")).
Proof.
  intros dtype b.
  destruct (makeConstArithmetic_inversion Examples.SampleObject Examples.sample_convert
              Examples.sample_toString dtype "X*K" (Examples.NumberObject 100))
    as (_ & _ & Hret).
  destruct (makeConstArithmetic_inversion Examples.SampleObject Examples.sample_convert
              Examples.sample_toString dtype "X*K" (Examples.VectorObject []))
    as (_ & Hthrow & _).
  split.
  - exact (Hret (existT (P := ConstArithmetic.Self) (scalar int8_t) b) eq_refl).
  - destruct (Hthrow (ObjectConvertError "Pothos::Object::convert()" "not a number")
                eq_refl) as [[Hno _]|Hyes]; [discriminate Hno|exact Hyes].
Defined.

(** X15: [angleFactory] never has undefined behaviour and throws nothing but
    the "unsupported type" exception, exactly on the unsupported types.
    When it returns a block, the requested type is complex over a signed
    component, the input port carries exactly the requested type, the
    output port the component type at the same dimension, nothing is
    pending, and the block registered no call, probe or signal. *)
Theorem angleFactory_inversion
    (toString : DType -> string)
    (getAngle : forall type : ScalarType, ctype (complex type) -> ctype (scalar type))
    (dtype : DType) :
  let result := angleFactory toString getAngle dtype in
  result <> Undefined /\
  (forall e, result = Throws e ->
     angle_supported dtype = false /\
     e = InvalidArgumentException ("angleFactory(" +:+ toString dtype +:+ ")")
                                  "unsupported type") /\
  (forall r, result = Returns r ->
     let b := projT2 r in
     elemType dtype = numeric (complex (projT1 r)) /\
     is_signed (projT1 r) = true /\
     Angle._fcn b = getAngleFcn (getAngle (projT1 r)) /\
     inputs (Angle.block b) !! 0%N = Some (mkPort dtype [] 0%N) /\
     outputs (Angle.block b) !! 0%N
     = Some (mkPort (mkDType (numeric (scalar (projT1 r))) (dimension dtype)) [] 0%N) /\
     log (Angle.block b)
     = [SetupInput 0 dtype;
        SetupOutput 0 (mkDType (numeric (scalar (projT1 r))) (dimension dtype))]).
Proof.
  intros result. subst result.
  destruct (angle_supported dtype) eqn:Hop.
  - unfold angle_supported in Hop.
    destruct (elemType dtype) as [[|type]|] eqn:E; try discriminate.
    rewrite (angleFactory_supported _ _ _ _ E Hop).
    split; [discriminate|]. split; [discriminate|].
    intros r H. injection H as <-. simpl.
    rewrite !lookup_insert_eq. unfold DType_typeid.
    rewrite <- E, DType_eta. rewrite E. repeat split. exact Hop.
  - rewrite (angleFactory_unsupported _ _ _ Hop).
    split; [discriminate|]. split; [|discriminate].
    intros e H. injection H as <-. split; reflexivity.
Qed.

Lemma angleFactory_inversion_witness :
  angle_supported (mkDType (numeric (scalar float)) 1) = false /\
  InvalidArgumentException
    ("angleFactory(" +:+ Examples.sample_toString (mkDType (numeric (scalar float)) 1) +:+ ")")
    "unsupported type"
  = InvalidArgumentException "angleFactory(numeric)" "unsupported type".
Proof.
  destruct (angleFactory_inversion Examples.sample_toString Examples.sample_getAngle_at
              (mkDType (numeric (scalar float)) 1)) as (_ & Hthrow & _).
  destruct (Hthrow (InvalidArgumentException "angleFactory(numeric)" "unsupported type")
              eq_refl) as [Hno He].
  split; [exact Hno|]. symmetry. exact He.
Defined.

(** ** Signals over a run of calls *)

Lemma perform_all_cons (t : CType) (c : Host.Call t) (rest : list (Host.Call t))
    (s s' : ConstArithmetic.Self t) :
  Host.perform_all (c :: rest) s = Returns (tt, s') ->
  exists s1, Host.perform c s = Returns (tt, s1) /\ Host.perform_all rest s1 = Returns (tt, s').
Proof.
  simpl. unfold mbind, M_bind, bind.
  destruct (Host.perform c s) as [[[] s1]| |]; try discriminate. eauto.
Qed.

Lemma last_constant (A : Type) (d v : A) (l : list A) :
  default d (last (v :: l)) = default v (last l).
Proof. rewrite last_cons. now destruct (last l). Qed.

(** The signal one call emits, and the constant it leaves. *)
Lemma perform_signals (t : CType) (c : Host.Call t) (s s1 : ConstArithmetic.Self t) :
  Host.perform c s = Returns (tt, s1) ->
  emitted (log (ConstArithmetic.block s1))
  = emitted (log (ConstArithmetic.block s))
    ++ ((fun v => ("constantChanged", v)) <$> constants_set [c]) /\
  ConstArithmetic._constant s1
  = default (ConstArithmetic._constant s) (last (constants_set [c])).
Proof.
  intros Hc. destruct (Host.is_setConstant c) eqn:Hset.
  - destruct c as [|v| |]; try discriminate.
    simpl in Hc. rewrite setConstant_run in Hc. injection Hc as <-.
    simpl. now rewrite emitted_app.
  - destruct (steady_perform c Hset _ _ _ Hc) as (Hk & _ & _ & events & Hlog & Hnone & _).
    assert (Hsame : constants_set [c] = []) by (destruct c; try discriminate; reflexivity).
    rewrite Hsame, Hlog, emitted_app, Hnone, Hk. simpl. now rewrite !app_nil_r.
Qed.

Lemma constants_set_cons (t : CType) (c : Host.Call t) (rest : list (Host.Call t)) :
  constants_set (c :: rest) = constants_set [c] ++ constants_set rest.
Proof. now destruct c. Qed.

(** X16: over any run of host calls that returns, the block emits one
    "constantChanged" signal per [setConstant] call and no other signal:
    the signals added to the log are the constants set, in call order, and
    the constant stored at the end is the last one set (the one stored
    before, if none was set). *)
Theorem signals_follow_setConstant (t : CType) (calls : list (Host.Call t))
    (s s' : ConstArithmetic.Self t) :
  Host.perform_all calls s = Returns (tt, s') ->
  emitted (log (ConstArithmetic.block s'))
  = emitted (log (ConstArithmetic.block s))
    ++ ((fun v => ("constantChanged", v)) <$> constants_set calls) /\
  ConstArithmetic._constant s'
  = default (ConstArithmetic._constant s) (last (constants_set calls)).
Proof.
  revert s. induction calls as [|c rest IH]; intros s H.
  - injection H as <-. simpl. now rewrite app_nil_r.
  - destruct (perform_all_cons _ _ _ _ _ H) as (s1 & Hc & Hrest).
    destruct (IH _ Hrest) as [Hsig Hconst].
    destruct (perform_signals _ _ _ _ Hc) as [Hsig1 Hconst1].
    rewrite constants_set_cons, fmap_app, app_assoc, <- Hsig1, <- Hsig.
    split; [reflexivity|].
    rewrite Hconst, Hconst1, last_app.
    now destruct (last (constants_set rest)).
Qed.

Lemma signals_follow_setConstant_witness :
  let s' :=
    ConstArithmetic.mkSelf (t := scalar int32_t)
      (mkBlock (mkWorkInfo 3)
         {[ 0%N := mkPort (DType_typeid (scalar int32_t) 1) [1; 2; 3]%Z 3%N ]}
         {[ 0%N := mkPort (DType_typeid (scalar int32_t) 1) [3; 2; 1]%Z 3%N ]}
         [EmitSignal "constantChanged" 7%Z; EmitSignal "constantChanged" 4%Z;
          InputBuffer 0; OutputBuffer 0; KernelCall (Some 4%Z) 3;
          Consume 0 3; Produce 0 3])
      4%Z None getKSubXFcn in
  emitted (log (ConstArithmetic.block s'))
  = emitted (log (ConstArithmetic.block Examples.int32_KSubX))
    ++ [("constantChanged", 7%Z); ("constantChanged", 4%Z)] /\
  ConstArithmetic._constant s' = 4%Z.
Proof.
  intros s'.
  exact (signals_follow_setConstant (scalar int32_t)
           [Host.CallSetConstant (t := scalar int32_t) 7%Z; Host.CallConstant;
            Host.CallSetConstant (t := scalar int32_t) 4%Z; Host.CallWork]
           Examples.int32_KSubX s' eq_refl).
Defined.

(** X17: observers stay in step with the block.  On a constructed
    [ConstArithmetic] block, after any run of host calls that returns, the
    last "constantChanged" signal emitted carries the constant the block
    stores, and [constant()] returns it. *)
Theorem last_signal_is_constant (t : CType)
    (func : option (ConstArithmeticFcn (ctype t))) (constant : ctype t) (dim : N)
    (calls : list (Host.Call t)) (b s' : ConstArithmetic.Self t) :
  ConstArithmetic.new t func constant dim = Returns b ->
  Host.perform_all calls b = Returns (tt, s') ->
  last (emitted (log (ConstArithmetic.block s')))
  = Some ("constantChanged", ConstArithmetic._constant s') /\
  ConstArithmetic.constant s' = Returns (ConstArithmetic._constant s', s').
Proof.
  intros Hnew Hrun. split; [|reflexivity].
  assert (Hb : last (emitted (log (ConstArithmetic.block b)))
               = Some ("constantChanged", ConstArithmetic._constant b)).
  { rewrite new_run in Hnew. now injection Hnew as <-. }
  clear Hnew. revert b Hb Hrun.
  induction calls as [|c rest IH]; intros b Hb Hrun.
  - now injection Hrun as <-.
  - destruct (perform_all_cons _ _ _ _ _ Hrun) as (s1 & Hc & Hrest).
    apply (IH s1); [|exact Hrest].
    destruct (perform_signals _ _ _ _ Hc) as [Hsig Hconst].
    rewrite Hsig, Hconst, last_app, fmap_last, Hb.
    now destruct (last (constants_set [c])).
Qed.

Lemma last_signal_is_constant_witness :
  let b :=
    ConstArithmetic.mkSelf (t := scalar int32_t)
      (mkBlock (mkWorkInfo 0)
         (<[0%N := mkPort (DType_typeid (scalar int32_t) 1) [] 0%N]> ∅)
         (<[0%N := mkPort (DType_typeid (scalar int32_t) 1) [] 0%N]> ∅)
         [SetupInput 0 (DType_typeid (scalar int32_t) 1);
          SetupOutput 0 (DType_typeid (scalar int32_t) 1);
          RegisterCall "constant"; RegisterCall "setConstant";
          RegisterProbe "constant"; RegisterSignal "constantChanged";
          EmitSignal "constantChanged" 10%Z])
      10%Z None getKSubXFcn in
  let s' :=
    ConstArithmetic.mkSelf (t := scalar int32_t)
      (mkBlock (mkWorkInfo 0)
         (<[0%N := mkPort (DType_typeid (scalar int32_t) 1) [] 0%N]> ∅)
         (<[0%N := mkPort (DType_typeid (scalar int32_t) 1) [] 0%N]> ∅)
         [SetupInput 0 (DType_typeid (scalar int32_t) 1);
          SetupOutput 0 (DType_typeid (scalar int32_t) 1);
          RegisterCall "constant"; RegisterCall "setConstant";
          RegisterProbe "constant"; RegisterSignal "constantChanged";
          EmitSignal "constantChanged" 10%Z; EmitSignal "constantChanged" 5%Z])
      5%Z None getKSubXFcn in
  last (emitted (log (ConstArithmetic.block s')))
  = Some ("constantChanged", ConstArithmetic._constant s') /\
  ConstArithmetic.constant s' = Returns (ConstArithmetic._constant s', s').
Proof.
  intros b s'.
  exact (last_signal_is_constant (scalar int32_t) getKSubXFcn 10%Z 1
           [Host.CallWork; Host.CallSetConstant (t := scalar int32_t) 5%Z; Host.CallWork]
           b s' eq_refl eq_refl).
Defined.
